(** * DRAMsim3: the memory-system orchestration layer (src/dram_system.cc)

    A shallow embedding of [BaseDRAMSystem], [JedecDRAMSystem] and
    [IdealDRAMSystem], and the properties of their clock, admission, address
    decoding, report sinks and completion callbacks.

    Conventions of the embedding.
    - [uint64_t] values are [Z] with the wrap-around [wrap64] written where
      the source computes. [int] values are [Z]; [wrap_int] is written where
      the source produces an [int] from a wider value: the sum stored in
      [total_channels_] and the channel index [GetChannel] returns.
    - An object is a record of its members; a method is a function from the
      object to the object after the call (and what the call returns).
    - A method that can end the process, throw, or step outside what C++
      defines returns an [Outcome].
    - [std::function] callbacks are labels; invoking one appends an [Event]
      to the trace the method returns.
    - The build modelled is the default one: THERMAL, GENERATE_TRACE,
      ADDRESS_TRACE and _OPENMP are off (the OpenMP loop is a plain loop over
      controllers with disjoint state); NDEBUG is a parameter.
    - [Config], [Transaction], [Timing] and [Controller] are declared in
      files outside dram_system.cc: [Config] and [Transaction] carry the
      members this file reads, [Controller] is an interface
      ([ControllerModel]), and [timing_], which is only handed on to the
      controllers, is part of what a controller is built from. *)

From Stdlib Require Import ZArith Lia String.
From stdpp Require Import base tactics option list.

Local Open Scope Z_scope.

(** ** Machine integers *)

(** A value reduced to [uint64_t]. *)
Definition wrap64 (z : Z) : Z := z mod 2 ^ 64.

(** A value reduced to a 32-bit two's-complement [int]: what a conversion
    of a wider integer to [int] keeps. C++ leaves signed overflow of an
    addition undefined; the statements about [total_channels_] are made for
    sums that fit. *)
Definition wrap_int (z : Z) : Z := (z + 2 ^ 31) mod 2 ^ 32 - 2 ^ 31.

Definition INT_MAX : Z := 2 ^ 31 - 1.

Definition INT_MIN : Z := - 2 ^ 31.

(** ** Configuration (the members of [Config] this file reads) *)

Record Config := {
  channels : Z;
  shift_bits : Z;
  ch_width : Z;
  ch_pos : Z;
  output_level : Z;
  epoch_period : Z;
  ideal_memory_latency : Z;
  output_prefix : string;
  IsHMC : bool
}.

(** ** Transactions *)

Record Transaction := {
  addr : Z;
  added_cycle : Z;
  is_write : bool
}.

(** [Transaction(hex_addr, is_write)]: the two-argument constructor; the
    cycle stamps start at 0. *)
Definition Transaction_new (hex_addr : Z) (w : bool) : Transaction :=
  {| addr := hex_addr; added_cycle := 0; is_write := w |}.

(** ** Address decoding *)

(** Modelled from the spec: [ModuloWidth] (declared outside the sources) is
    the field extraction of section 4.1: "extract a field of the configured
    width at the configured bit position from the shifted value, and return
    that field's integer value as the index". *)
Definition ModuloWidth (a bit_width pos : Z) : Z :=
  Z.land (Z.shiftr a pos) (Z.ones bit_width).

(** [BaseDRAMSystem::GetChannel]: [hex_addr >>= config_.shift_bits] on the
    [uint64_t] address, the field extraction, and the field returned as the
    [int] the function is declared with, which keeps its low 32 bits: a
    field value from 2^31 on comes back negative, and bits of the field
    from bit 32 on are dropped. C++ defines the shift for counts 0..63
    only ([shift_defined]); for any other count the value below describes
    no behaviour of the code. *)
Definition GetChannel (config_ : Config) (hex_addr : Z) : Z :=
  let hex_addr := Z.shiftr hex_addr (shift_bits config_) in
  wrap_int (ModuloWidth hex_addr (ch_width config_) (ch_pos config_)).

(** The shift counts for which [hex_addr >>= config_.shift_bits] is defined
    on a 64-bit word. *)
Definition shift_defined (c : Config) : Prop :=
  0 <= shift_bits c < 64.

(** The address bit-field layout of section 6: three non-negative integers,
    the intra-line shift being a shift count of a 64-bit word. *)
Definition layout_ok (c : Config) : Prop :=
  0 <= shift_bits c < 64 /\ 0 <= ch_pos c /\ 0 <= ch_width c.

(** Bit [i] of the address lies in the channel field. *)
Definition in_channel_field (c : Config) (i : Z) : Prop :=
  shift_bits c + ch_pos c <= i < shift_bits c + ch_pos c + ch_width c.

(** ** Outcomes of a call *)

Inductive Outcome (A : Type) : Type :=
| Returns (a : A)   (* the call returns *)
| Exits             (* the process ends: AbruptExit, a failed assert *)
| Throws            (* a standard-library exception leaves the call *)
| Undefined.        (* outside what C++ defines: index past the end, x % 0 *)
Arguments Returns {A} a.
Arguments Exits {A}.
Arguments Throws {A}.
Arguments Undefined {A}.

(** ** Callbacks and report sinks *)

(** A [std::function<void(uint64_t)>] is known by a label. *)
Definition Callback : Type := nat.

(** One invocation [cb(address)]. *)
Inductive Event : Type :=
| Invoke (cb : Callback) (address : Z).

(** A line of a report. *)
Definition Row : Type := string.

(** A [std::ofstream]: whether a file is open behind it, the name it was
    opened under, and the rows inserted into it, oldest first. *)
Record ofstream := {
  is_open : bool;
  file_name : string;
  rows : list Row
}.

(** A default-constructed stream. *)
Definition ofstream_init : ofstream :=
  {| is_open := false; file_name := EmptyString; rows := [] |}.

(** [f.open(name)]; opening is taken to succeed. *)
Definition ofstream_open (f : ofstream) (name : string) : ofstream :=
  {| is_open := true; file_name := name; rows := rows f |}.

(** [f.close()]. *)
Definition ofstream_close (f : ofstream) : ofstream :=
  {| is_open := false; file_name := file_name f; rows := rows f |}.

(** [~ofstream]: a stream that is destroyed closes the file behind it. *)
Definition ofstream_destroy (f : ofstream) : ofstream :=
  ofstream_close f.

(** [f << row]: the row joins what was handed to the stream. *)
Definition ofstream_insert (f : ofstream) (r : Row) : ofstream :=
  {| is_open := is_open f; file_name := file_name f; rows := rows f ++ [r] |}.

(** ** Process-wide state *)

(** The static [BaseDRAMSystem::total_channels_] and the number of
    [Controller] objects alive on the heap. *)
Record Process := {
  total_channels_ : Z;
  heap_controllers : nat
}.

(** The state at program start: [int BaseDRAMSystem::total_channels_ = 0]. *)
Definition Process_init : Process :=
  {| total_channels_ := 0; heap_controllers := 0%nat |}.

(** ** BaseDRAMSystem *)

Record BaseDRAMSystem := {
  read_callback_ : Callback;
  write_callback_ : Callback;
  last_req_clk_ : Z;
  config_ : Config;
  clk_ : Z;
  stats_txt_file_ : ofstream;
  stats_csv_file_ : ofstream;
  epoch_csv_file_ : ofstream;
  histo_csv_file_ : ofstream
}.

(** [BaseDRAMSystem::BaseDRAMSystem]. *)
Definition BaseDRAMSystem_new (p : Process) (config : Config)
    (read_callback write_callback : Callback) : Process * BaseDRAMSystem :=
  let p' := {| total_channels_ := wrap_int (total_channels_ p + channels config);
               heap_controllers := heap_controllers p |} in
  let stats_txt_name := (output_prefix config ++ ".txt")%string in
  let stats_csv_name := (output_prefix config ++ ".csv")%string in
  let epoch_csv_name := (output_prefix config ++ "epoch.csv")%string in
  let histo_csv_name := (output_prefix config ++ "hist.csv")%string in
  let at_level (n : Z) (name : string) : ofstream :=
    if n <=? output_level config then ofstream_open ofstream_init name
    else ofstream_init in
  (p', {| read_callback_ := read_callback;
          write_callback_ := write_callback;
          last_req_clk_ := 0;
          config_ := config;
          clk_ := 0;
          stats_txt_file_ := at_level 0 stats_txt_name;
          stats_csv_file_ := at_level 0 stats_csv_name;
          epoch_csv_file_ := at_level 1 epoch_csv_name;
          histo_csv_file_ := at_level 2 histo_csv_name |}).

(** The body of [BaseDRAMSystem::~BaseDRAMSystem]: three calls of
    [close()]; [histo_csv_file_] is not named. *)
Definition BaseDRAMSystem_dtor_body (b : BaseDRAMSystem) : BaseDRAMSystem :=
  {| read_callback_ := read_callback_ b;
     write_callback_ := write_callback_ b;
     last_req_clk_ := last_req_clk_ b;
     config_ := config_ b;
     clk_ := clk_ b;
     stats_txt_file_ := ofstream_close (stats_txt_file_ b);
     stats_csv_file_ := ofstream_close (stats_csv_file_ b);
     epoch_csv_file_ := ofstream_close (epoch_csv_file_ b);
     histo_csv_file_ := histo_csv_file_ b |}.

(** Destroying a [BaseDRAMSystem]: the body of the destructor runs, then
    the members are destroyed, among them the four streams, which the
    constructor opens as objects ([stats_txt_file_.open(...)]): each is
    closed by its own destructor if the body left it open. *)
Definition BaseDRAMSystem_delete (b : BaseDRAMSystem) : BaseDRAMSystem :=
  let b := BaseDRAMSystem_dtor_body b in
  {| read_callback_ := read_callback_ b;
     write_callback_ := write_callback_ b;
     last_req_clk_ := last_req_clk_ b;
     config_ := config_ b;
     clk_ := clk_ b;
     stats_txt_file_ := ofstream_destroy (stats_txt_file_ b);
     stats_csv_file_ := ofstream_destroy (stats_csv_file_ b);
     epoch_csv_file_ := ofstream_destroy (epoch_csv_file_ b);
     histo_csv_file_ := ofstream_destroy (histo_csv_file_ b) |}.

(** [BaseDRAMSystem::RegisterCallbacks]. *)
Definition RegisterCallbacks (b : BaseDRAMSystem)
    (read_callback write_callback : Callback) : BaseDRAMSystem :=
  {| read_callback_ := read_callback;
     write_callback_ := write_callback;
     last_req_clk_ := last_req_clk_ b;
     config_ := config_ b;
     clk_ := clk_ b;
     stats_txt_file_ := stats_txt_file_ b;
     stats_csv_file_ := stats_csv_file_ b;
     epoch_csv_file_ := epoch_csv_file_ b;
     histo_csv_file_ := histo_csv_file_ b |}.

(** [clk_++]. *)
Definition Base_tick (b : BaseDRAMSystem) : BaseDRAMSystem :=
  {| read_callback_ := read_callback_ b;
     write_callback_ := write_callback_ b;
     last_req_clk_ := last_req_clk_ b;
     config_ := config_ b;
     clk_ := wrap64 (clk_ b + 1);
     stats_txt_file_ := stats_txt_file_ b;
     stats_csv_file_ := stats_csv_file_ b;
     epoch_csv_file_ := epoch_csv_file_ b;
     histo_csv_file_ := histo_csv_file_ b |}.

(** The object with its four streams replaced. *)
Definition Base_with_files (b : BaseDRAMSystem)
    (txt csv epoch histo : ofstream) : BaseDRAMSystem :=
  {| read_callback_ := read_callback_ b;
     write_callback_ := write_callback_ b;
     last_req_clk_ := last_req_clk_ b;
     config_ := config_ b;
     clk_ := clk_ b;
     stats_txt_file_ := txt;
     stats_csv_file_ := csv;
     epoch_csv_file_ := epoch;
     histo_csv_file_ := histo |}.

(** The report sinks, by name. *)
Inductive Sink : Type := StatsTxt | StatsCsv | EpochCsv | HistoCsv.

#[global] Instance Sink_eq_dec : EqDecision Sink.
Proof. solve_decision. Defined.

Definition all_sinks : list Sink := [StatsTxt; StatsCsv; EpochCsv; HistoCsv].

Definition sink_stream (k : Sink) (b : BaseDRAMSystem) : ofstream :=
  match k with
  | StatsTxt => stats_txt_file_ b
  | StatsCsv => stats_csv_file_ b
  | EpochCsv => epoch_csv_file_ b
  | HistoCsv => histo_csv_file_ b
  end.

(** The sinks an object holds open. *)
Definition open_sinks (b : BaseDRAMSystem) : list Sink :=
  filter (fun k => is_open (sink_stream k b) = true) all_sinks.

(** The sinks that destroying the object releases: open before, closed
    after. *)
Definition released_sinks (b : BaseDRAMSystem) : list Sink :=
  filter (fun k => is_open (sink_stream k b) = true /\
                   is_open (sink_stream k (BaseDRAMSystem_delete b)) = false)
         all_sinks.

(** The sinks among them that the destructor's own [close()] calls
    release. *)
Definition closed_by_dtor_body (b : BaseDRAMSystem) : list Sink :=
  filter (fun k => is_open (sink_stream k b) = true /\
                   is_open (sink_stream k (BaseDRAMSystem_dtor_body b)) = false)
         all_sinks.

(** ** IdealDRAMSystem *)

Record IdealDRAMSystem := {
  ideal_base : BaseDRAMSystem;
  latency_ : Z;
  infinite_buffer_q_ : list Transaction
}.

(** [IdealDRAMSystem::IdealDRAMSystem]. *)
Definition IdealDRAMSystem_new (p : Process) (config : Config)
    (read_callback write_callback : Callback) : Process * IdealDRAMSystem :=
  let '(p', b) := BaseDRAMSystem_new p config read_callback write_callback in
  (p', {| ideal_base := b;
          latency_ := ideal_memory_latency (config_ b);
          infinite_buffer_q_ := [] |}).

(** [IdealDRAMSystem::~IdealDRAMSystem]: an empty body, then the base
    object is destroyed. *)
Definition IdealDRAMSystem_delete (s : IdealDRAMSystem) : BaseDRAMSystem :=
  BaseDRAMSystem_delete (ideal_base s).

(** [IdealDRAMSystem::AddTransaction]. *)
Definition Ideal_AddTransaction (s : IdealDRAMSystem) (hex_addr : Z)
    (w : bool) : bool * IdealDRAMSystem :=
  let trans := Transaction_new hex_addr w in
  let trans := {| addr := addr trans;
                  added_cycle := clk_ (ideal_base s);
                  is_write := is_write trans |} in
  (true, {| ideal_base := ideal_base s;
            latency_ := latency_ s;
            infinite_buffer_q_ := infinite_buffer_q_ s ++ [trans] |}).

(** The transaction a request becomes when it is submitted at tick [clk]. *)
Definition stamped (clk : Z) (request : Z * bool) : Transaction :=
  {| addr := request.1; added_cycle := clk; is_write := request.2 |}.

(** Several submissions in a row, with what each call returned. *)
Fixpoint Ideal_submit_all (s : IdealDRAMSystem) (requests : list (Z * bool))
    : list bool * IdealDRAMSystem :=
  match requests with
  | [] => ([], s)
  | (hex_addr, w) :: requests =>
    let '(ok, s) := Ideal_AddTransaction s hex_addr w in
    let '(oks, s) := Ideal_submit_all s requests in
    (ok :: oks, s)
  end.

(** [clk_ - trans_it->added_cycle >= static_cast<uint64_t>(latency_)], in
    unsigned 64-bit arithmetic. *)
Definition due (clk latency : Z) (t : Transaction) : bool :=
  wrap64 latency <=? wrap64 (clk - added_cycle t).

(** The callback branch of the loop body. *)
Definition completion (b : BaseDRAMSystem) (t : Transaction) : Event :=
  if is_write t then Invoke (write_callback_ b) (addr t)
  else Invoke (read_callback_ b) (addr t).

(** The loop of [IdealDRAMSystem::ClockTick], one iteration per unit of
    fuel. The iterator [trans_it] is a position in the queue; [end()] is the
    position [length q]. [erase] removes the element at the position and
    returns the same position, which now designates the next element. *)
Fixpoint ClockTick_loop (fuel : nat) (b : BaseDRAMSystem) (latency : Z)
    (q : list Transaction) (trans_it : nat) (trace : list Event)
    : option (list Transaction * list Event) :=
  match fuel with
  | O => None
  | S fuel =>
    match q !! trans_it with
    | None => Some (q, trace)
    | Some t =>
      let '(q, trace) :=
        if due (clk_ b) latency t
        then (delete trans_it q, trace ++ [completion b t])
        else (q, trace) in
      let trans_it :=
        if decide (trans_it < length q)%nat then S trans_it else trans_it in
      ClockTick_loop fuel b latency q trans_it trace
    end
  end.

(** [IdealDRAMSystem::ClockTick]: the loop from [begin()], then [clk_++].
    The loop ends within [length q + 1] iterations
    ([ClockTick_loop_enough_fuel]), so the last branch is never taken. *)
Definition Ideal_ClockTick (s : IdealDRAMSystem)
    : IdealDRAMSystem * list Event :=
  let q := infinite_buffer_q_ s in
  match ClockTick_loop (S (length q)) (ideal_base s) (latency_ s) q 0 [] with
  | Some (q', trace) =>
    ({| ideal_base := Base_tick (ideal_base s);
        latency_ := latency_ s;
        infinite_buffer_q_ := q' |}, trace)
  | None => (s, [])
  end.

(** The same loop by recursion on the queue: what is kept and which
    callbacks run. After an [erase] the element that moved into the erased
    position is stepped over without being examined. *)
Fixpoint ClockTick_scan (b : BaseDRAMSystem) (latency : Z)
    (q : list Transaction) : list Transaction * list Event :=
  match q with
  | [] => ([], [])
  | t :: rest =>
    if due (clk_ b) latency t then
      match rest with
      | [] => ([], [completion b t])
      | t' :: rest' =>
        let '(kept, trace) := ClockTick_scan b latency rest' in
        (t' :: kept, completion b t :: trace)
      end
    else
      let '(kept, trace) := ClockTick_scan b latency rest in
      (t :: kept, trace)
  end.

(** The transactions one [ClockTick] erases, in queue order. *)
Fixpoint ClockTick_erased (b : BaseDRAMSystem) (latency : Z)
    (q : list Transaction) : list Transaction :=
  match q with
  | [] => []
  | t :: rest =>
    if due (clk_ b) latency t then
      match rest with
      | [] => [t]
      | t' :: rest' => t :: ClockTick_erased b latency rest'
      end
    else ClockTick_erased b latency rest
  end.

(** The calls a driver makes on an ideal system. *)
Inductive IdealCall : Type :=
| IdealAdd (hex_addr : Z) (w : bool)
| IdealTick
| IdealRegister (read_callback write_callback : Callback)
| IdealGetChannel (hex_addr : Z).

Definition Ideal_call (s : IdealDRAMSystem) (c : IdealCall)
    : IdealDRAMSystem * list Event :=
  match c with
  | IdealAdd a w => ((Ideal_AddTransaction s a w).2, [])
  | IdealTick => Ideal_ClockTick s
  | IdealRegister r w =>
    ({| ideal_base := RegisterCallbacks (ideal_base s) r w;
        latency_ := latency_ s;
        infinite_buffer_q_ := infinite_buffer_q_ s |}, [])
  | IdealGetChannel a =>
    let _ := GetChannel (config_ (ideal_base s)) a in (s, [])
  end.

(** A sequence of calls; the trace pairs each callback with the value of
    [clk_] during the [ClockTick] that invoked it. *)
Fixpoint Ideal_run (s : IdealDRAMSystem) (cs : list IdealCall)
    : IdealDRAMSystem * list (Z * Event) :=
  match cs with
  | [] => (s, [])
  | c :: cs =>
    let '(s1, evs) := Ideal_call s c in
    let '(s2, tr) := Ideal_run s1 cs in
    (s2, map (fun e => (clk_ (ideal_base s), e)) evs ++ tr)
  end.

Definition is_IdealTick (c : IdealCall) : bool :=
  match c with IdealTick => true | _ => false end.

(** ** The channel controller, at its boundary *)

(** [Controller] is an external collaborator (section 6 of the spec): the
    orchestration layer constructs controllers, asks them for admission,
    hands them transactions, advances them and asks them to report. What a
    controller does inside is left open, except for the contract of
    section 4.3 on reporting: a controller asked for its epoch statistics
    appends one row, [ctrl_epoch_row], to the stream it is given. *)
Class ControllerModel (Controller : Type) := {
  ctrl_new : Z -> Config -> Callback -> Callback -> Controller;
  ctrl_WillAcceptTransaction : Controller -> Z -> bool -> bool;
  ctrl_AddTransaction : Controller -> Transaction -> Controller;
  ctrl_ClockTick : Controller -> Controller;
  ctrl_PrintEpochStats : Controller -> ofstream -> Controller * ofstream;
  ctrl_PrintFinalStats :
    Controller -> ofstream -> ofstream -> ofstream ->
    Controller * (ofstream * ofstream * ofstream);
  ctrl_epoch_row : Controller -> Row;
  ctrl_PrintEpochStats_row : forall c epoch_csv,
    rows (ctrl_PrintEpochStats c epoch_csv).2 =
    rows epoch_csv ++ [ctrl_epoch_row c]
}.

(** ** JedecDRAMSystem *)

Record JedecDRAMSystem (Controller : Type) := {
  jedec_base : BaseDRAMSystem;
  ctrls_ : list Controller
}.
Arguments jedec_base {Controller} _.
Arguments ctrls_ {Controller} _.

(** The calls a driver makes on a timing-accurate system. *)
Inductive Call : Type :=
| CallWillAccept (hex_addr : Z) (w : bool)
| CallAdd (hex_addr : Z) (w : bool)
| CallTick
| CallPrintStats
| CallRegister (read_callback write_callback : Callback)
| CallGetChannel (hex_addr : Z).

Definition is_CallTick (c : Call) : bool :=
  match c with CallTick => true | _ => false end.

Section Jedec.
Context {Controller : Type} {CM : ControllerModel Controller}.

(** The loop of the constructor:
    [for (auto i = 0; i < config_.channels; i++) ctrls_.push_back(new ...)]. *)
Fixpoint push_controllers (fuel : nat) (i : Z) (b : BaseDRAMSystem)
    (ctrls : list Controller) : list Controller :=
  match fuel with
  | O => ctrls
  | S fuel =>
    if i <? channels (config_ b) then
      push_controllers fuel (i + 1) b
        (ctrls ++ [ctrl_new i (config_ b) (read_callback_ b) (write_callback_ b)])
    else ctrls
  end.

(** [JedecDRAMSystem::JedecDRAMSystem]: the base constructor runs first;
    [AbruptExit] ends the process; [reserve] of a negative count, converted
    to [size_t], exceeds [max_size()] and throws. The loop runs
    [config_.channels] times. *)
Definition JedecDRAMSystem_new (p : Process) (config : Config)
    (read_callback write_callback : Callback)
    : Process * Outcome (JedecDRAMSystem Controller) :=
  let '(p, b) := BaseDRAMSystem_new p config read_callback write_callback in
  if IsHMC (config_ b) then (p, Exits)
  else if channels (config_ b) <? 0 then (p, Throws)
  else
    let ctrls := push_controllers (Z.to_nat (channels (config_ b))) 0 b [] in
    ({| total_channels_ := total_channels_ p;
        heap_controllers := heap_controllers p + length ctrls |},
     Returns {| jedec_base := b; ctrls_ := ctrls |}).

(** [JedecDRAMSystem::~JedecDRAMSystem]: [delete] on every controller, then
    the base object is destroyed. *)
Definition JedecDRAMSystem_delete (p : Process)
    (s : JedecDRAMSystem Controller) : Process * BaseDRAMSystem :=
  ({| total_channels_ := total_channels_ p;
      heap_controllers := heap_controllers p - length (ctrls_ s) |},
   BaseDRAMSystem_delete (jedec_base s)).

(** [ctrls_[channel]] for an [int channel]; [None] past either end. *)
Definition ctrl_at (ctrls : list Controller) (channel : Z)
    : option Controller :=
  if channel <? 0 then None else ctrls !! Z.to_nat channel.

(** [JedecDRAMSystem::WillAcceptTransaction]. *)
Definition Jedec_WillAcceptTransaction (s : JedecDRAMSystem Controller)
    (hex_addr : Z) (w : bool) : Outcome bool :=
  let channel := GetChannel (config_ (jedec_base s)) hex_addr in
  match ctrl_at (ctrls_ s) channel with
  | None => Undefined
  | Some c => Returns (ctrl_WillAcceptTransaction c hex_addr w)
  end.

(** [JedecDRAMSystem::AddTransaction]; [assert(ok)] is compiled in unless
    NDEBUG is defined. *)
Definition Jedec_AddTransaction (NDEBUG : bool)
    (s : JedecDRAMSystem Controller) (hex_addr : Z) (w : bool)
    : Outcome (bool * JedecDRAMSystem Controller) :=
  let channel := GetChannel (config_ (jedec_base s)) hex_addr in
  match ctrl_at (ctrls_ s) channel with
  | None => Undefined
  | Some c =>
    let ok := ctrl_WillAcceptTransaction c hex_addr w in
    if negb NDEBUG && negb ok then Exits
    else if ok then
      let trans := Transaction_new hex_addr w in
      Returns (ok, {| jedec_base := jedec_base s;
                      ctrls_ := <[Z.to_nat channel :=
                                  ctrl_AddTransaction c trans]> (ctrls_ s) |})
    else Returns (ok, s)
  end.

(** [for (auto &&ctrl : ctrls_) ctrl->PrintEpochStats(epoch_csv_file_)]. *)
Fixpoint PrintEpochStats_all (ctrls : list Controller) (epoch_csv : ofstream)
    : list Controller * ofstream :=
  match ctrls with
  | [] => ([], epoch_csv)
  | c :: ctrls =>
    let '(c, epoch_csv) := ctrl_PrintEpochStats c epoch_csv in
    let '(ctrls, epoch_csv) := PrintEpochStats_all ctrls epoch_csv in
    (c :: ctrls, epoch_csv)
  end.

(** [JedecDRAMSystem::ClockTick]: every controller advances, [clk_++], and
    on [clk_ % config_.epoch_period == 0] every controller reports. The
    remainder is taken in [uint64_t]; a zero divisor is undefined. *)
Definition Jedec_ClockTick (s : JedecDRAMSystem Controller)
    : Outcome (JedecDRAMSystem Controller) :=
  let ctrls := ctrl_ClockTick <$> ctrls_ s in
  let b := Base_tick (jedec_base s) in
  let period := wrap64 (epoch_period (config_ b)) in
  if period =? 0 then Undefined
  else if clk_ b mod period =? 0 then
    let '(ctrls, epoch_csv) := PrintEpochStats_all ctrls (epoch_csv_file_ b) in
    Returns {| jedec_base :=
                 Base_with_files b (stats_txt_file_ b) (stats_csv_file_ b)
                                 epoch_csv (histo_csv_file_ b);
               ctrls_ := ctrls |}
  else Returns {| jedec_base := b; ctrls_ := ctrls |}.

(** [for (auto &&ctrl : ctrls_) ctrl->PrintFinalStats(...)]. *)
Fixpoint PrintFinalStats_all (ctrls : list Controller)
    (txt csv histo : ofstream)
    : list Controller * (ofstream * ofstream * ofstream) :=
  match ctrls with
  | [] => ([], (txt, csv, histo))
  | c :: ctrls =>
    let '(c, (txt, csv, histo)) := ctrl_PrintFinalStats c txt csv histo in
    let '(ctrls, files) := PrintFinalStats_all ctrls txt csv histo in
    (c :: ctrls, files)
  end.

(** [JedecDRAMSystem::PrintStats]. *)
Definition Jedec_PrintStats (s : JedecDRAMSystem Controller)
    : JedecDRAMSystem Controller :=
  let b := jedec_base s in
  let '(ctrls, (txt, csv, histo)) :=
    PrintFinalStats_all (ctrls_ s) (stats_txt_file_ b) (stats_csv_file_ b)
                        (histo_csv_file_ b) in
  {| jedec_base := Base_with_files b txt csv (epoch_csv_file_ b) histo;
     ctrls_ := ctrls |}.

(** One call; the object after it when the call returns. *)
Definition Jedec_call (NDEBUG : bool) (s : JedecDRAMSystem Controller)
    (c : Call) : Outcome (JedecDRAMSystem Controller) :=
  match c with
  | CallWillAccept a w =>
    match Jedec_WillAcceptTransaction s a w with
    | Returns _ => Returns s
    | Exits => Exits
    | Throws => Throws
    | Undefined => Undefined
    end
  | CallAdd a w =>
    match Jedec_AddTransaction NDEBUG s a w with
    | Returns (_, s') => Returns s'
    | Exits => Exits
    | Throws => Throws
    | Undefined => Undefined
    end
  | CallTick => Jedec_ClockTick s
  | CallPrintStats => Returns (Jedec_PrintStats s)
  | CallRegister r w =>
    Returns {| jedec_base := RegisterCallbacks (jedec_base s) r w;
               ctrls_ := ctrls_ s |}
  | CallGetChannel a =>
    let _ := GetChannel (config_ (jedec_base s)) a in Returns s
  end.

(** A sequence of calls, up to the first that does not return. *)
Fixpoint Jedec_run (NDEBUG : bool) (s : JedecDRAMSystem Controller)
    (cs : list Call) : Outcome (JedecDRAMSystem Controller) :=
  match cs with
  | [] => Returns s
  | c :: cs =>
    match Jedec_call NDEBUG s c with
    | Returns s' => Jedec_run NDEBUG s' cs
    | other => other
    end
  end.

End Jedec.

(** ** A process with several memory systems *)

Inductive Instance (Controller : Type) : Type :=
| JedecObj (s : JedecDRAMSystem Controller)
| IdealObj (s : IdealDRAMSystem).
Arguments JedecObj {Controller} s.
Arguments IdealObj {Controller} s.

(** What a driver does: construct a system, destroy the [i]-th live one, or
    call a method of the [i]-th live one. *)
Inductive Op : Type :=
| NewJedec (config : Config) (read_callback write_callback : Callback)
| NewIdeal (config : Config) (read_callback write_callback : Callback)
| Delete (i : nat)
| OnJedec (i : nat) (c : Call)
| OnIdeal (i : nat) (c : IdealCall).

Record World (Controller : Type) := {
  running : bool;
  process : Process;
  objects : list (Instance Controller)
}.
Arguments running {Controller} _.
Arguments process {Controller} _.
Arguments objects {Controller} _.

Section Driver.
Context {Controller : Type} {CM : ControllerModel Controller}.

Definition World_init : World Controller :=
  {| running := true; process := Process_init; objects := [] |}.

(** One step of the driver. A process that has ended takes no further
    step; an operation naming no live object of the right kind is skipped. *)
Definition world_step (NDEBUG : bool) (w : World Controller) (op : Op)
    : World Controller :=
  if negb (running w) then w else
  match op with
  | NewJedec config r wr =>
    let '(p, o) := JedecDRAMSystem_new (process w) config r wr in
    match o with
    | Returns s =>
      {| running := true; process := p;
         objects := objects w ++ [JedecObj s] |}
    | _ => {| running := false; process := p; objects := objects w |}
    end
  | NewIdeal config r wr =>
    let '(p, s) := IdealDRAMSystem_new (process w) config r wr in
    {| running := true; process := p; objects := objects w ++ [IdealObj s] |}
  | Delete i =>
    match objects w !! i with
    | Some (JedecObj s) =>
      {| running := true;
         process := (JedecDRAMSystem_delete (process w) s).1;
         objects := delete i (objects w) |}
    | Some (IdealObj s) =>
      {| running := true; process := process w;
         objects := delete i (objects w) |}
    | None => w
    end
  | OnJedec i c =>
    match objects w !! i with
    | Some (JedecObj s) =>
      match Jedec_call NDEBUG s c with
      | Returns s' =>
        {| running := true; process := process w;
           objects := <[i := JedecObj s']> (objects w) |}
      | _ => {| running := false; process := process w;
                objects := objects w |}
      end
    | _ => w
    end
  | OnIdeal i c =>
    match objects w !! i with
    | Some (IdealObj s) =>
      {| running := true; process := process w;
         objects := <[i := IdealObj (Ideal_call s c).1]> (objects w) |}
    | _ => w
    end
  end.

Definition world_run (NDEBUG : bool) (w : World Controller) (ops : list Op)
    : World Controller :=
  foldl (world_step NDEBUG) w ops.

End Driver.

(** The channel count an operation hands to a constructor. *)
Definition op_channels (op : Op) : Z :=
  match op with
  | NewJedec config _ _ | NewIdeal config _ _ => channels config
  | _ => 0
  end.

(** c1 + ... + cN over the constructions of a sequence. *)
Definition constructed_channels (ops : list Op) : Z :=
  foldr (fun op acc => op_channels op + acc) 0 ops.

Definition Call_ticks (cs : list Call) : Z :=
  Z.of_nat (length (filter (fun c => is_CallTick c = true) cs)).

Definition IdealCall_ticks (cs : list IdealCall) : Z :=
  Z.of_nat (length (filter (fun c => is_IdealTick c = true) cs)).

(** ** Drivers used to state properties of whole runs *)

(** The submissions of a call sequence that starts at tick [clk]: for each
    [AddTransaction], the tick at which it is made, the address and the
    direction. *)
Fixpoint Ideal_submissions (clk : Z) (cs : list IdealCall)
    : list (Z * (Z * bool)) :=
  match cs with
  | [] => []
  | IdealAdd a w :: cs => (clk, (a, w)) :: Ideal_submissions clk cs
  | IdealTick :: cs => Ideal_submissions (clk + 1) cs
  | _ :: cs => Ideal_submissions clk cs
  end.

(** What one call puts into the queue: [AddTransaction] queues the request
    stamped with the current [clk_]; no other call queues anything. *)
Definition Ideal_call_submitted (s : IdealDRAMSystem) (c : IdealCall)
    : list Transaction :=
  match c with
  | IdealAdd a w => [stamped (clk_ (ideal_base s)) (a, w)]
  | _ => []
  end.

(** What one call takes out of the queue: [ClockTick] erases; no other
    call does. *)
Definition Ideal_call_erased (s : IdealDRAMSystem) (c : IdealCall)
    : list Transaction :=
  match c with
  | IdealTick =>
    ClockTick_erased (ideal_base s) (latency_ s) (infinite_buffer_q_ s)
  | _ => []
  end.

(** The transactions a call sequence submits, in order. *)
Fixpoint Ideal_run_submitted (s : IdealDRAMSystem) (cs : list IdealCall)
    : list Transaction :=
  match cs with
  | [] => []
  | c :: cs =>
    Ideal_call_submitted s c ++ Ideal_run_submitted (Ideal_call s c).1 cs
  end.

(** The transactions a call sequence erases, in order, each with the base
    object (its clock and registered callbacks) at the [ClockTick] that
    erased it. *)
Fixpoint Ideal_run_erased (s : IdealDRAMSystem) (cs : list IdealCall)
    : list (BaseDRAMSystem * Transaction) :=
  match cs with
  | [] => []
  | c :: cs =>
    ((fun t => (ideal_base s, t)) <$> Ideal_call_erased s c) ++
    Ideal_run_erased (Ideal_call s c).1 cs
  end.

Section GuardedDriver.
Context {Controller : Type} {CM : ControllerModel Controller}.

(** A driver that follows the admission protocol: it asks
    [WillAcceptTransaction] and calls [AddTransaction] only on a yes. *)
Definition Jedec_submit_if_accepted (NDEBUG : bool)
    (s : JedecDRAMSystem Controller) (hex_addr : Z) (w : bool)
    : Outcome (bool * JedecDRAMSystem Controller) :=
  match Jedec_WillAcceptTransaction s hex_addr w with
  | Returns true => Jedec_AddTransaction NDEBUG s hex_addr w
  | Returns false => Returns (false, s)
  | Exits => Exits
  | Throws => Throws
  | Undefined => Undefined
  end.

(** The same driver over a list of requests, with what it submitted. *)
Fixpoint Jedec_submit_all_if_accepted (NDEBUG : bool)
    (s : JedecDRAMSystem Controller) (requests : list (Z * bool))
    : Outcome (list bool * JedecDRAMSystem Controller) :=
  match requests with
  | [] => Returns ([], s)
  | (hex_addr, w) :: requests =>
    match Jedec_submit_if_accepted NDEBUG s hex_addr w with
    | Returns (ok, s) =>
      match Jedec_submit_all_if_accepted NDEBUG s requests with
      | Returns (oks, s) => Returns (ok :: oks, s)
      | Exits => Exits
      | Throws => Throws
      | Undefined => Undefined
      end
    | Exits => Exits
    | Throws => Throws
    | Undefined => Undefined
    end
  end.

End GuardedDriver.

(** Two timing-accurate systems that differ at most in the callbacks
    registered with the base object. *)
Definition same_apart_from_callbacks {Controller : Type}
    (s1 s2 : JedecDRAMSystem Controller) : Prop :=
  ctrls_ s1 = ctrls_ s2 /\
  RegisterCallbacks (jedec_base s1) 0%nat 0%nat =
  RegisterCallbacks (jedec_base s2) 0%nat 0%nat.

(** Two outcomes of the same kind, with results that differ at most in the
    registered callbacks. *)
Definition same_outcome_apart_from_callbacks {Controller : Type}
    (o1 o2 : Outcome (JedecDRAMSystem Controller)) : Prop :=
  match o1, o2 with
  | Returns s1, Returns s2 => same_apart_from_callbacks s1 s2
  | Exits, Exits | Throws, Throws | Undefined, Undefined => True
  | _, _ => False
  end.

(** ** A small controller and configurations for examples *)

(** A controller with a one-entry queue that drains one entry per tick. *)
#[local] Instance QueueController : ControllerModel (list Transaction) := {
  ctrl_new _ _ _ _ := [];
  ctrl_WillAcceptTransaction q _ _ := bool_decide (length q < 1)%nat;
  ctrl_AddTransaction q t := q ++ [t];
  ctrl_ClockTick q := tail q;
  ctrl_PrintEpochStats q epoch_csv :=
    (q, ofstream_insert epoch_csv "epoch"%string);
  ctrl_PrintFinalStats q txt csv histo :=
    (q, (ofstream_insert txt "final", ofstream_insert csv "final",
         ofstream_insert histo "final"))%string;
  ctrl_epoch_row q := "epoch"%string;
  ctrl_PrintEpochStats_row q epoch_csv := eq_refl
}.

(** Two channels selected by address bit 6, reports at every tier, an epoch
    of 4 ticks, an ideal latency of 3 ticks. *)
Definition example_config : Config :=
  {| channels := 2; shift_bits := 6; ch_width := 1; ch_pos := 0;
     output_level := 2; epoch_period := 4; ideal_memory_latency := 3;
     output_prefix := "dramsim3"; IsHMC := false |}.

Definition example_hmc_config : Config :=
  {| channels := 2; shift_bits := 6; ch_width := 1; ch_pos := 0;
     output_level := 2; epoch_period := 4; ideal_memory_latency := 3;
     output_prefix := "dramsim3"; IsHMC := true |}.

(** The timing-accurate system the constructor builds for
    [example_config], and the same system with the queue of channel 0 full. *)
Definition example_jedec : JedecDRAMSystem (list Transaction) :=
  {| jedec_base := (BaseDRAMSystem_new Process_init example_config 1%nat 2%nat).2;
     ctrls_ := [[]; []] |}.

Definition example_jedec_full : JedecDRAMSystem (list Transaction) :=
  {| jedec_base := jedec_base example_jedec;
     ctrls_ := [[Transaction_new 0 false]; []] |}.

(** [example_jedec] after one and after three [ClockTick]s with nothing
    queued. *)
Definition example_jedec_tick1 : JedecDRAMSystem (list Transaction) :=
  {| jedec_base := Base_tick (jedec_base example_jedec);
     ctrls_ := [[]; []] |}.

Definition example_jedec_tick3 : JedecDRAMSystem (list Transaction) :=
  {| jedec_base := Base_tick (Base_tick (Base_tick (jedec_base example_jedec)));
     ctrls_ := [[]; []] |}.

(** A single channel: an empty channel field. *)
Definition example_config_1ch : Config :=
  {| channels := 1; shift_bits := 6; ch_width := 0; ch_pos := 0;
     output_level := 0; epoch_period := 4; ideal_memory_latency := 3;
     output_prefix := "dramsim3"; IsHMC := false |}.

(** A channel field of 33 bits, one more than an [int] holds, and one of
    32 bits. *)
Definition example_config_wide : Config :=
  {| channels := 1; shift_bits := 6; ch_width := 33; ch_pos := 0;
     output_level := 0; epoch_period := 4; ideal_memory_latency := 3;
     output_prefix := "dramsim3"; IsHMC := false |}.

Definition example_config_32 : Config :=
  {| channels := 1; shift_bits := 6; ch_width := 32; ch_pos := 0;
     output_level := 0; epoch_period := 4; ideal_memory_latency := 3;
     output_prefix := "dramsim3"; IsHMC := false |}.

(** A configuration whose channel field names two channels while only one
    is built, and the system the constructor builds for it. *)
Definition example_config_mismatch : Config :=
  {| channels := 1; shift_bits := 6; ch_width := 1; ch_pos := 0;
     output_level := 0; epoch_period := 4; ideal_memory_latency := 3;
     output_prefix := "dramsim3"; IsHMC := false |}.

Definition example_jedec_mismatch : JedecDRAMSystem (list Transaction) :=
  {| jedec_base :=
       (BaseDRAMSystem_new Process_init example_config_mismatch 1%nat 2%nat).2;
     ctrls_ := [[]] |}.

(** The systems the constructor builds for [example_config_wide] and
    [example_config_32]: one controller each. *)
Definition example_jedec_wide : JedecDRAMSystem (list Transaction) :=
  {| jedec_base :=
       (BaseDRAMSystem_new Process_init example_config_wide 1%nat 2%nat).2;
     ctrls_ := [[]] |}.

Definition example_jedec_32 : JedecDRAMSystem (list Transaction) :=
  {| jedec_base :=
       (BaseDRAMSystem_new Process_init example_config_32 1%nat 2%nat).2;
     ctrls_ := [[]] |}.

(** [example_jedec] after nine [ClockTick]s. *)
Definition example_jedec_tick9 : JedecDRAMSystem (list Transaction) :=
  match Jedec_run false example_jedec (replicate 9 CallTick) with
  | Returns s => s
  | _ => example_jedec
  end.

(** The ideal system the constructor builds for [example_config]. *)
Definition example_ideal : IdealDRAMSystem :=
  (IdealDRAMSystem_new Process_init example_config 1%nat 2%nat).2.

(** * Theorems *)

Lemma ModuloWidth_range a w p :
  0 <= w -> 0 <= ModuloWidth a w p < 2 ^ w.
Proof.
  intros Hw. unfold ModuloWidth. rewrite Z.land_ones by lia.
  apply Z.mod_pos_bound. apply Z.pow_pos_nonneg; lia.
Qed.

Lemma channel_field_testbit c a i :
  0 <= shift_bits c -> 0 <= ch_pos c -> 0 <= ch_width c -> 0 <= i ->
  Z.testbit
    (ModuloWidth (Z.shiftr a (shift_bits c)) (ch_width c) (ch_pos c)) i =
  Z.testbit a (i + ch_pos c + shift_bits c) && (i <? ch_width c).
Proof.
  intros Hs Hp Hw Hi. unfold ModuloWidth.
  rewrite Z.land_spec, !Z.shiftr_spec by lia.
  rewrite Z.testbit_ones_nonneg by lia.
  replace (0 <=? i)%Z with true by (symmetry; apply Z.leb_le; lia).
  reflexivity.
Qed.

(** The conversion to [int] keeps 32-bit values apart. *)
Lemma wrap_int_inj x y :
  0 <= x < 2 ^ 32 -> 0 <= y < 2 ^ 32 -> wrap_int x = wrap_int y -> x = y.
Proof.
  unfold wrap_int. intros Hx Hy H.
  assert (Hm : forall z, 0 <= z < 2 ^ 32 ->
            (z + 2 ^ 31) mod 2 ^ 32 =
            if z <? 2 ^ 31 then z + 2 ^ 31 else z - 2 ^ 31).
  { intros z Hz. destruct (Z.ltb_spec z (2 ^ 31)).
    - apply Z.mod_small. lia.
    - symmetry. apply (Z.mod_unique_pos _ _ 1); lia. }
  rewrite !Hm in H by assumption.
  destruct (Z.ltb_spec x (2 ^ 31)), (Z.ltb_spec y (2 ^ 31)); lia.
Qed.

(** A field of at most 31 bits is returned as it is. *)
Lemma GetChannel_range c a :
  0 <= ch_width c <= 31 ->
  0 <= GetChannel c a < 2 ^ ch_width c.
Proof.
  intros Hw. unfold GetChannel.
  pose proof (ModuloWidth_range (Z.shiftr a (shift_bits c)) (ch_width c)
                (ch_pos c) (proj1 Hw)) as Hr.
  assert (2 ^ ch_width c <= 2 ^ 31) by (apply Z.pow_le_mono_r; lia).
  unfold wrap_int. rewrite Z.mod_small by lia. lia.
Qed.

(** C4, as the code has it. Partitioning of [GetChannel]: addresses that
    agree on every bit of the channel field decode to the same channel;
    distinct addresses that agree on every bit outside the field decode to
    different channels when the field is not empty and has at most 32 bits,
    the width of the [int] the channel is returned in; an empty field
    decodes every address to 0. *)
Theorem GetChannel_partition (c : Config) (a b : Z) :
  layout_ok c ->
  ((forall i, in_channel_field c i -> Z.testbit a i = Z.testbit b i) ->
   GetChannel c a = GetChannel c b) /\
  (0 < ch_width c <= 32 -> a <> b ->
   (forall i, ~ in_channel_field c i -> Z.testbit a i = Z.testbit b i) ->
   GetChannel c a <> GetChannel c b) /\
  (ch_width c = 0 -> GetChannel c a = 0).
Proof.
  intros ([Hs _] & Hp & Hw). unfold in_channel_field. repeat split.
  - intros Hin. unfold GetChannel. cbv zeta. f_equal.
    apply Z.bits_inj'. intros i Hi.
    rewrite !channel_field_testbit by lia.
    destruct (Z.ltb_spec i (ch_width c)) as [Hlt|Hge].
    + rewrite (Hin (i + ch_pos c + shift_bits c)) by lia. reflexivity.
    + rewrite !andb_false_r. reflexivity.
  - intros [_ H32] Hne Hout Heq. apply Hne. unfold GetChannel in Heq.
    cbv zeta in Heq.
    assert (H2 : 2 ^ ch_width c <= 2 ^ 32) by (apply Z.pow_le_mono_r; lia).
    apply wrap_int_inj in Heq.
    2,3: match goal with
         | |- 0 <= ModuloWidth ?x ?w ?p < _ =>
           pose proof (ModuloWidth_range x w p Hw); lia
         end.
    apply Z.bits_inj'. intros j Hj.
    destruct (Z_lt_le_dec j (shift_bits c + ch_pos c)) as [Hlo|Hlo].
    { apply Hout. lia. }
    destruct (Z_lt_le_dec j (shift_bits c + ch_pos c + ch_width c)) as [Hhi|Hhi].
    2:{ apply Hout. lia. }
    assert (Hb : Z.testbit
                   (ModuloWidth (Z.shiftr a (shift_bits c)) (ch_width c)
                      (ch_pos c)) (j - ch_pos c - shift_bits c) =
                 Z.testbit
                   (ModuloWidth (Z.shiftr b (shift_bits c)) (ch_width c)
                      (ch_pos c)) (j - ch_pos c - shift_bits c))
      by (rewrite Heq; reflexivity).
    rewrite !channel_field_testbit in Hb by lia.
    replace (j - ch_pos c - shift_bits c + ch_pos c + shift_bits c) with j in Hb by lia.
    replace (j - ch_pos c - shift_bits c <? ch_width c) with true in Hb
      by (symmetry; apply Z.ltb_lt; lia).
    rewrite !andb_true_r in Hb. exact Hb.
  - intros H0. unfold GetChannel, ModuloWidth. rewrite H0. simpl.
    rewrite Z.land_0_r. reflexivity.
Qed.

(** The partition on [example_config], whose channel field is address
    bit 6: 0x00 and 0x3F agree on the field, 0x00 and 0x40 differ only in
    it; and on [example_config_1ch], whose field is empty. *)
Lemma GetChannel_partition_witness :
  GetChannel example_config 0 = GetChannel example_config 63 /\
  GetChannel example_config 0 <> GetChannel example_config 64 /\
  GetChannel example_config_1ch 12345 = 0.
Proof.
  assert (Hok : layout_ok example_config) by (unfold layout_ok; simpl; lia).
  assert (Hok1 : layout_ok example_config_1ch)
    by (unfold layout_ok; simpl; lia).
  split; [|split].
  - apply (proj1 (GetChannel_partition example_config 0 63 Hok)).
    intros i Hi. unfold in_channel_field in Hi. simpl in Hi.
    replace i with 6 by lia. reflexivity.
  - apply (proj1 (proj2 (GetChannel_partition example_config 0 64 Hok))).
    + simpl. lia.
    + discriminate.
    + intros i Hi. unfold in_channel_field in Hi. simpl in Hi.
      rewrite Z.bits_0. symmetry.
      apply (Z.pow2_bits_false 6 i). lia.
  - apply (proj2 (proj2 (GetChannel_partition example_config_1ch 12345 0 Hok1))).
    reflexivity.
Defined.

(** C4, as the spec has it, fails for a field wider than an [int]. On
    [example_config_wide] the field is address bits 6 to 38: the addresses
    0 and 2^38 differ in bit 38 alone, which lies in the field, and both
    decode to channel 0, because bit 32 of the field does not fit the [int]
    that [GetChannel] returns. *)
Theorem GetChannel_partition_fails_past_int :
  layout_ok example_config_wide /\
  0 < ch_width example_config_wide /\
  0 <> 2 ^ 38 /\
  in_channel_field example_config_wide 38 /\
  (forall i, i <> 38 -> Z.testbit 0 i = Z.testbit (2 ^ 38) i) /\
  GetChannel example_config_wide 0 = GetChannel example_config_wide (2 ^ 38).
Proof.
  unfold layout_ok, in_channel_field. simpl.
  repeat split; try lia.
  intros i Hi. rewrite Z.bits_0. symmetry.
  apply (Z.pow2_bits_false 38 i). lia.
Qed.

(** The same field one bit narrower fits: 0 and 2^37 decode to different
    channels, the second to a negative one. *)
Example GetChannel_width_32 :
  GetChannel example_config_32 0 = 0 /\
  GetChannel example_config_32 (2 ^ 37) = - 2 ^ 31.
Proof. split; reflexivity. Qed.

(** Scenario 3 of the spec: a one-bit field at bit position 6. *)
Example GetChannel_bit6 :
  let c := {| channels := 2; shift_bits := 0; ch_width := 1; ch_pos := 6;
              output_level := 0; epoch_period := 1; ideal_memory_latency := 1;
              output_prefix := EmptyString; IsHMC := false |} in
  GetChannel c 0x00 = 0 /\ GetChannel c 0x40 = 1 /\ GetChannel c 0x3F = 0.
Proof. repeat split. Qed.

(** ** The ideal model *)

Lemma list_pair_ind {A} (P : list A -> Prop) :
  P [] -> (forall x, P [x]) ->
  (forall x y l, P l -> P (y :: l) -> P (x :: y :: l)) ->
  forall l, P l.
Proof.
  intros Hnil Hone Hstep l.
  enough (H : P l /\ forall x, P (x :: l)) by apply H.
  induction l as [|y l [IH1 IH2]]; split; auto.
Qed.

(** The iterator loop run from position [length pre] of [pre ++ q] keeps
    [pre] and treats [q] as [ClockTick_scan] does, whenever the fuel exceeds
    the length of [q]. *)
Lemma ClockTick_loop_scan b L (q : list Transaction) :
  forall fuel pre trace, (length q < fuel)%nat ->
  ClockTick_loop fuel b L (pre ++ q) (length pre) trace =
  Some (pre ++ (ClockTick_scan b L q).1, trace ++ (ClockTick_scan b L q).2).
Proof.
  induction q as [|t|t t' rest IH1 IH2] using list_pair_ind;
    intros [|fuel] pre trace Hf; simpl in Hf; try lia.
  - simpl. rewrite lookup_ge_None_2 by (rewrite length_app; simpl; lia).
    rewrite !app_nil_r. reflexivity.
  - cbn [ClockTick_loop ClockTick_scan].
    rewrite list_lookup_middle by reflexivity.
    destruct (due (clk_ b) L t).
    + rewrite delete_middle, app_nil_r.
      destruct (decide (length pre < length pre)%nat); [lia|].
      destruct fuel; [lia|]. simpl.
      rewrite lookup_ge_None_2 by lia. rewrite app_nil_r. reflexivity.
    + destruct (decide (length pre < length (pre ++ [t]))%nat) as [_|Hn].
      2:{ rewrite length_app in Hn. simpl in Hn. lia. }
      destruct fuel; [lia|]. simpl.
      rewrite lookup_ge_None_2 by (rewrite length_app; simpl; lia).
      rewrite app_nil_r. reflexivity.
  - cbn [ClockTick_loop]. rewrite list_lookup_middle by reflexivity.
    change (ClockTick_scan b L (t :: t' :: rest)) with
      (if due (clk_ b) L t
       then let '(kept, tr) := ClockTick_scan b L rest in
            (t' :: kept, completion b t :: tr)
       else let '(kept, tr) := ClockTick_scan b L (t' :: rest) in
            (t :: kept, tr)).
    destruct (due (clk_ b) L t).
    + rewrite delete_middle.
      destruct (decide (length pre < length (pre ++ t' :: rest))%nat) as [_|Hn].
      2:{ rewrite length_app in Hn. simpl in Hn. lia. }
      specialize (IH1 fuel (pre ++ [t']) (trace ++ [completion b t])).
      rewrite length_app, <- !app_assoc in IH1. cbn [length app] in IH1.
      replace (length pre + 1)%nat with (S (length pre)) in IH1 by lia.
      rewrite IH1 by lia.
      destruct (ClockTick_scan b L rest) as [kept tr]. reflexivity.
    + destruct (decide (length pre < length (pre ++ t :: t' :: rest))%nat) as [_|Hn].
      2:{ rewrite length_app in Hn. simpl in Hn. lia. }
      specialize (IH2 fuel (pre ++ [t]) trace).
      rewrite length_app, <- !app_assoc in IH2. cbn [length app] in IH2.
      replace (length pre + 1)%nat with (S (length pre)) in IH2 by lia.
      rewrite IH2 by (simpl; lia).
      destruct (ClockTick_scan b L (t' :: rest)) as [kept tr]. reflexivity.
Qed.

(** The loop of [ClockTick] ends: [length q + 1] iterations reach [end()]. *)
Lemma ClockTick_loop_enough_fuel b L (q : list Transaction) :
  ClockTick_loop (S (length q)) b L q 0 [] = Some (ClockTick_scan b L q).
Proof.
  pose proof (ClockTick_loop_scan b L q (S (length q)) [] []) as H.
  change ([] ++ q) with q in H. change (length []) with 0%nat in H.
  rewrite H by lia.
  destruct (ClockTick_scan b L q). reflexivity.
Qed.

Lemma Ideal_ClockTick_scan s :
  Ideal_ClockTick s =
  ({| ideal_base := Base_tick (ideal_base s);
      latency_ := latency_ s;
      infinite_buffer_q_ :=
        (ClockTick_scan (ideal_base s) (latency_ s) (infinite_buffer_q_ s)).1 |},
   (ClockTick_scan (ideal_base s) (latency_ s) (infinite_buffer_q_ s)).2).
Proof.
  unfold Ideal_ClockTick. rewrite ClockTick_loop_enough_fuel.
  destruct (ClockTick_scan _ _ _). reflexivity.
Qed.

Lemma ClockTick_scan_cons2 b L t t' rest :
  ClockTick_scan b L (t :: t' :: rest) =
  if due (clk_ b) L t
  then ((t' :: (ClockTick_scan b L rest).1),
        completion b t :: (ClockTick_scan b L rest).2)
  else (t :: (ClockTick_scan b L (t' :: rest)).1,
        (ClockTick_scan b L (t' :: rest)).2).
Proof.
  change (ClockTick_scan b L (t :: t' :: rest)) with
    (if due (clk_ b) L t
     then let '(kept, tr) := ClockTick_scan b L rest in
          (t' :: kept, completion b t :: tr)
     else let '(kept, tr) := ClockTick_scan b L (t' :: rest) in
          (t :: kept, tr)).
  destruct (due (clk_ b) L t).
  - destruct (ClockTick_scan b L rest); reflexivity.
  - destruct (ClockTick_scan b L (t' :: rest)); reflexivity.
Qed.

Lemma ClockTick_erased_cons2 b L t t' rest :
  ClockTick_erased b L (t :: t' :: rest) =
  if due (clk_ b) L t then t :: ClockTick_erased b L rest
  else ClockTick_erased b L (t' :: rest).
Proof. reflexivity. Qed.

Lemma ClockTick_scan_trace b L q :
  (ClockTick_scan b L q).2 = completion b <$> ClockTick_erased b L q.
Proof.
  induction q as [|t|t t' rest IH1 IH2] using list_pair_ind.
  - reflexivity.
  - simpl. destruct (due (clk_ b) L t); reflexivity.
  - rewrite ClockTick_scan_cons2, ClockTick_erased_cons2.
    destruct (due (clk_ b) L t); cbn [fst snd];
      [rewrite IH1|rewrite IH2]; reflexivity.
Qed.

Lemma ClockTick_scan_split b L q :
  q ≡ₚ (ClockTick_scan b L q).1 ++ ClockTick_erased b L q.
Proof.
  induction q as [|t|t t' rest IH1 IH2] using list_pair_ind.
  - reflexivity.
  - simpl. destruct (due (clk_ b) L t); reflexivity.
  - rewrite ClockTick_scan_cons2, ClockTick_erased_cons2.
    destruct (due (clk_ b) L t); cbn [fst snd].
    + rewrite <- Permutation_middle. cbn [app]. rewrite <- IH1. reflexivity.
    + cbn [app]. rewrite <- IH2. reflexivity.
Qed.

Lemma ClockTick_scan_sublist b L q :
  sublist (ClockTick_scan b L q).1 q.
Proof.
  induction q as [|t|t t' rest IH1 IH2] using list_pair_ind.
  - constructor.
  - simpl. destruct (due (clk_ b) L t); simpl.
    + apply sublist_nil_l.
    + reflexivity.
  - rewrite ClockTick_scan_cons2.
    destruct (due (clk_ b) L t); cbn [fst snd].
    + apply sublist_cons, sublist_skip, IH1.
    + apply sublist_skip, IH2.
Qed.

Lemma ClockTick_erased_due b L q :
  Forall (fun t => due (clk_ b) L t = true) (ClockTick_erased b L q).
Proof.
  induction q as [|t|t t' rest IH1 IH2] using list_pair_ind.
  - constructor.
  - simpl. destruct (due (clk_ b) L t) eqn:E; repeat constructor; exact E.
  - rewrite ClockTick_erased_cons2.
    destruct (due (clk_ b) L t) eqn:E; [constructor|]; assumption.
Qed.

Lemma Ideal_submit_all_cons s a w requests :
  Ideal_submit_all s ((a, w) :: requests) =
  (true :: (Ideal_submit_all (Ideal_AddTransaction s a w).2 requests).1,
   (Ideal_submit_all (Ideal_AddTransaction s a w).2 requests).2).
Proof.
  cbn [Ideal_submit_all].
  destruct (Ideal_AddTransaction s a w) as [ok s1] eqn:E.
  assert (ok = true) as -> by (injection E; congruence).
  simpl. destruct (Ideal_submit_all s1 requests). reflexivity.
Qed.

Lemma Ideal_submit_all_admits requests : forall s,
  (Ideal_submit_all s requests).1 = replicate (length requests) true /\
  infinite_buffer_q_ (Ideal_submit_all s requests).2 =
    infinite_buffer_q_ s ++ (stamped (clk_ (ideal_base s)) <$> requests) /\
  ideal_base (Ideal_submit_all s requests).2 = ideal_base s /\
  latency_ (Ideal_submit_all s requests).2 = latency_ s.
Proof.
  induction requests as [|[a w] requests IH]; intros s.
  - simpl. rewrite app_nil_r. repeat split.
  - rewrite Ideal_submit_all_cons.
    destruct (IH (Ideal_AddTransaction s a w).2) as (Hoks & Hq & Hb & Hl).
    cbn [fst snd]. rewrite Hoks, Hq, Hb, Hl. cbn.
    rewrite <- app_assoc. repeat split.
Qed.

(** C2. [IdealDRAMSystem::AddTransaction] returns [true] in every state and
    appends exactly one transaction, stamped with the current [clk_], to
    [infinite_buffer_q_]; the clock and everything else in the object stay
    as they were. So any number of submissions in a row are all admitted,
    whatever the queue already holds. *)
Theorem Ideal_AddTransaction_admits (s : IdealDRAMSystem) :
  (forall (a : Z) (w : bool),
     (Ideal_AddTransaction s a w).1 = true /\
     infinite_buffer_q_ (Ideal_AddTransaction s a w).2 =
       infinite_buffer_q_ s ++
         [{| addr := a; added_cycle := clk_ (ideal_base s); is_write := w |}] /\
     ideal_base (Ideal_AddTransaction s a w).2 = ideal_base s /\
     latency_ (Ideal_AddTransaction s a w).2 = latency_ s) /\
  (forall requests : list (Z * bool),
     (Ideal_submit_all s requests).1 = replicate (length requests) true /\
     infinite_buffer_q_ (Ideal_submit_all s requests).2 =
       infinite_buffer_q_ s ++ (stamped (clk_ (ideal_base s)) <$> requests) /\
     ideal_base (Ideal_submit_all s requests).2 = ideal_base s /\
     latency_ (Ideal_submit_all s requests).2 = latency_ s).
Proof.
  split.
  - intros a w. repeat split.
  - intros requests. apply Ideal_submit_all_admits.
Qed.

(** C10. One [IdealDRAMSystem::ClockTick] splits the queue in two: the
    transactions kept, which are transactions of the old queue unchanged and
    in their old order, and the transactions erased, each of which was due
    and had its matching callback invoked with its address during this same
    call; nothing leaves the queue any other way. *)
Theorem Ideal_ClockTick_erases_only_completed (s : IdealDRAMSystem) :
  exists erased : list Transaction,
    infinite_buffer_q_ s ≡ₚ infinite_buffer_q_ (Ideal_ClockTick s).1 ++ erased /\
    sublist (infinite_buffer_q_ (Ideal_ClockTick s).1) (infinite_buffer_q_ s) /\
    (Ideal_ClockTick s).2 = completion (ideal_base s) <$> erased /\
    Forall (fun t => due (clk_ (ideal_base s)) (latency_ s) t = true) erased.
Proof.
  exists (ClockTick_erased (ideal_base s) (latency_ s) (infinite_buffer_q_ s)).
  rewrite Ideal_ClockTick_scan. simpl.
  split; [apply ClockTick_scan_split|].
  split; [apply ClockTick_scan_sublist|].
  split; [apply ClockTick_scan_trace|apply ClockTick_erased_due].
Qed.

(** C1, at a failing input. Two reads are submitted to [example_ideal]
    (latency 3) at tick 0. The first completes during the [ClockTick] at
    tick 3; the second, stepped over after the [erase], completes one tick
    late, during the [ClockTick] at tick 4. *)
Theorem Ideal_ClockTick_skips_after_erase :
  (Ideal_run example_ideal
     [IdealAdd 4096 false; IdealAdd 8192 false;
      IdealTick; IdealTick; IdealTick; IdealTick; IdealTick]).2 =
  [(3, Invoke 1%nat 4096); (4, Invoke 1%nat 8192)].
Proof. vm_compute. reflexivity. Qed.

(** The step-over in general: whenever the head of the queue is erased, the
    transaction behind it stays in the queue for this tick, due or not. *)
Lemma Ideal_ClockTick_keeps_successor b L t t' rest :
  due (clk_ b) L t = true ->
  exists kept, (ClockTick_scan b L (t :: t' :: rest)).1 = t' :: kept.
Proof.
  intros Hd. rewrite ClockTick_scan_cons2, Hd. eexists. reflexivity.
Qed.

(** Scenario 2 of the spec: latency 100, a read of 0x1000 submitted at
    tick 5 completes at tick 105. A transaction with no erased neighbour
    before it completes on time. *)
Example Ideal_scenario_2 :
  let config :=
    {| channels := 1; shift_bits := 6; ch_width := 0; ch_pos := 0;
       output_level := 0; epoch_period := 1000; ideal_memory_latency := 100;
       output_prefix := EmptyString; IsHMC := false |} in
  (Ideal_run (IdealDRAMSystem_new Process_init config 1%nat 2%nat).2
     (replicate 5 IdealTick ++ [IdealAdd 4096 false] ++
      replicate 110 IdealTick)).2 =
  [(105, Invoke 1%nat 4096)].
Proof. vm_compute. reflexivity. Qed.

(** A transaction alone in the queue does complete at its due tick: the
    step-over only delays a transaction that follows an erased one. *)
Lemma Ideal_ClockTick_alone_on_time :
  (Ideal_run example_ideal
     [IdealTick; IdealTick; IdealAdd 4096 true;
      IdealTick; IdealTick; IdealTick; IdealTick; IdealTick]).2 =
  [(5, Invoke 2%nat 4096)].
Proof. vm_compute. reflexivity. Qed.

(** ** Report sinks *)


(** How the release is divided: the [close()] calls in the body of the
    destructor release the text, table and epoch sinks; an open histogram
    sink is still open when the body ends and is released by the
    destruction of the stream itself. *)
Lemma histo_csv_file_closed_by_its_destructor (b : BaseDRAMSystem) :
  is_open (histo_csv_file_ (BaseDRAMSystem_dtor_body b)) =
    is_open (histo_csv_file_ b) /\
  is_open (histo_csv_file_ (BaseDRAMSystem_delete b)) = false /\
  closed_by_dtor_body b = filter (fun k => k <> HistoCsv) (open_sinks b).
Proof.
  split; [reflexivity|]. split; [reflexivity|].
  unfold closed_by_dtor_body, open_sinks, all_sinks.
  destruct b as [? ? ? ? ? [[] ? ?] [[] ? ?] [[] ? ?] [[] ? ?]]; reflexivity.
Qed.

(** At tier 2 the four sinks are opened; the body of the destructor closes
    three, the destruction of the object all four. *)
Example sinks_at_tier_2 :
  open_sinks (BaseDRAMSystem_new Process_init example_config 1%nat 2%nat).2 =
    [StatsTxt; StatsCsv; EpochCsv; HistoCsv] /\
  closed_by_dtor_body
    (BaseDRAMSystem_new Process_init example_config 1%nat 2%nat).2 =
    [StatsTxt; StatsCsv; EpochCsv] /\
  released_sinks (BaseDRAMSystem_new Process_init example_config 1%nat 2%nat).2 =
    [StatsTxt; StatsCsv; EpochCsv; HistoCsv].
Proof. vm_compute. repeat split. Qed.

(** ** The timing-accurate model *)

Section JedecTheorems.
Context {Controller : Type} {CM : ControllerModel Controller}.

Lemma push_controllers_seqZ (fuel : nat) (i : Z) (b : BaseDRAMSystem)
    (ctrls : list Controller) :
  i + Z.of_nat fuel = channels (config_ b) ->
  push_controllers fuel i b ctrls =
  ctrls ++ ((fun k => ctrl_new k (config_ b) (read_callback_ b) (write_callback_ b))
            <$> seqZ i (Z.of_nat fuel)).
Proof.
  revert i ctrls. induction fuel as [|fuel IH]; intros i ctrls Hi.
  - simpl. rewrite app_nil_r. reflexivity.
  - cbn [push_controllers].
    destruct (Z.ltb_spec i (channels (config_ b))) as [_|Hge]; [|lia].
    rewrite IH by lia. rewrite <- app_assoc. f_equal.
    rewrite (seqZ_cons i) by lia.
    replace (Z.pred (Z.of_nat (S fuel))) with (Z.of_nat fuel) by lia.
    reflexivity.
Qed.

(** C5. Constructing the timing-accurate system from a configuration for
    which [IsHMC()] holds ends the process before any controller is
    allocated; from any other configuration, with a non-negative channel
    count, the constructor returns a system holding exactly one new
    controller per channel, controller [i] built for channel [i]. *)
Theorem JedecDRAMSystem_new_controllers (p : Process) (config : Config)
    (r w : Callback) :
  (IsHMC config = true ->
   (JedecDRAMSystem_new p config r w).2 = Exits /\
   heap_controllers (JedecDRAMSystem_new p config r w).1 = heap_controllers p) /\
  (IsHMC config = false -> 0 <= channels config ->
   exists s : JedecDRAMSystem Controller,
     (JedecDRAMSystem_new p config r w).2 = Returns s /\
     ctrls_ s = (fun i => ctrl_new i config r w) <$> seqZ 0 (channels config) /\
     length (ctrls_ s) = Z.to_nat (channels config) /\
     heap_controllers (JedecDRAMSystem_new p config r w).1 =
       (heap_controllers p + Z.to_nat (channels config))%nat).
Proof.
  unfold JedecDRAMSystem_new. simpl. split.
  - intros ->. split; reflexivity.
  - intros -> Hc.
    destruct (Z.ltb_spec (channels config) 0) as [Hneg|_]; [lia|].
    eexists. split; [reflexivity|]. simpl.
    rewrite push_controllers_seqZ by (simpl; lia). simpl.
    rewrite Z2Nat.id by lia.
    rewrite length_fmap, length_seqZ. repeat split.
Qed.

Lemma PrintEpochStats_all_rows (ctrls : list Controller) (f : ofstream) :
  rows (PrintEpochStats_all ctrls f).2 =
    rows f ++ (ctrl_epoch_row <$> ctrls) /\
  length (PrintEpochStats_all ctrls f).1 = length ctrls.
Proof.
  revert f. induction ctrls as [|c ctrls IH]; intros f.
  - simpl. rewrite app_nil_r. split; reflexivity.
  - cbn [PrintEpochStats_all].
    pose proof (ctrl_PrintEpochStats_row c f) as Hrow.
    destruct (ctrl_PrintEpochStats c f) as [c' f1]. simpl in Hrow.
    destruct (IH f1) as [IHrows IHlen].
    destruct (PrintEpochStats_all ctrls f1) as [ctrls' f2].
    simpl in *. rewrite IHrows, Hrow, <- app_assoc, IHlen.
    split; reflexivity.
Qed.

(** C6. One [JedecDRAMSystem::ClockTick] first advances every controller,
    then increments [clk_]; the periodic-epoch sink receives one row from
    each advanced controller, in controller order, when the new [clk_] is a
    multiple of [epoch_period], and receives nothing otherwise. *)
Theorem Jedec_ClockTick_epoch_rows (s : JedecDRAMSystem Controller) :
  0 < epoch_period (config_ (jedec_base s)) < 2 ^ 64 ->
  exists s' : JedecDRAMSystem Controller,
    Jedec_ClockTick s = Returns s' /\
    clk_ (jedec_base s') = wrap64 (clk_ (jedec_base s) + 1) /\
    length (ctrls_ s') = length (ctrls_ s) /\
    rows (epoch_csv_file_ (jedec_base s')) =
      rows (epoch_csv_file_ (jedec_base s)) ++
      (if clk_ (jedec_base s') mod epoch_period (config_ (jedec_base s)) =? 0
       then ctrl_epoch_row <$> (ctrl_ClockTick <$> ctrls_ s)
       else []).
Proof.
  intros Hp. unfold Jedec_ClockTick. cbn [Base_tick config_ clk_].
  assert (Hw : wrap64 (epoch_period (config_ (jedec_base s))) =
               epoch_period (config_ (jedec_base s)))
    by (unfold wrap64; apply Z.mod_small; lia).
  rewrite Hw.
  destruct (Z.eqb_spec (epoch_period (config_ (jedec_base s))) 0) as [H0|_];
    [lia|].
  destruct (PrintEpochStats_all_rows (ctrl_ClockTick <$> ctrls_ s)
              (epoch_csv_file_ (jedec_base s))) as [Hrows Hlen].
  cbn [epoch_csv_file_].
  destruct (PrintEpochStats_all _ _) as [ctrls f]. simpl in Hrows, Hlen.
  destruct (wrap64 (clk_ (jedec_base s) + 1)
              mod epoch_period (config_ (jedec_base s)) =? 0) eqn:E.
  - eexists. split; [reflexivity|]. simpl. rewrite E, Hlen, length_fmap.
    repeat split. exact Hrows.
  - eexists. split; [reflexivity|]. simpl.
    rewrite E, app_nil_r, length_fmap. repeat split.
Qed.

(** C3, as the code has it. When the decoded channel names a controller,
    [WillAcceptTransaction] returns that controller's answer, and
    [AddTransaction] re-checks it: on admission it returns [true] and hands
    a new transaction to that controller alone; on rejection no controller
    changes, and the call returns [false] when assertions are compiled out
    and ends the process on the failed [assert] otherwise. *)
Theorem Jedec_AddTransaction_admission (NDEBUG : bool)
    (s : JedecDRAMSystem Controller) (a : Z) (w : bool) (c : Controller) :
  ctrl_at (ctrls_ s) (GetChannel (config_ (jedec_base s)) a) = Some c ->
  Jedec_WillAcceptTransaction s a w =
    Returns (ctrl_WillAcceptTransaction c a w) /\
  (ctrl_WillAcceptTransaction c a w = true ->
   Jedec_AddTransaction NDEBUG s a w =
     Returns (true,
              {| jedec_base := jedec_base s;
                 ctrls_ := <[Z.to_nat (GetChannel (config_ (jedec_base s)) a) :=
                             ctrl_AddTransaction c (Transaction_new a w)]>
                           (ctrls_ s) |})) /\
  (ctrl_WillAcceptTransaction c a w = false ->
   Jedec_AddTransaction NDEBUG s a w =
     if NDEBUG then Returns (false, s) else Exits).
Proof.
  intros Hc. unfold Jedec_WillAcceptTransaction, Jedec_AddTransaction.
  rewrite Hc. split; [reflexivity|]. split; intros ->.
  - rewrite andb_false_r. reflexivity.
  - destruct NDEBUG; reflexivity.
Qed.

End JedecTheorems.

(** The constructor on the two example configurations. *)
Lemma JedecDRAMSystem_new_controllers_witness :
  ((JedecDRAMSystem_new (CM := QueueController)
      Process_init example_hmc_config 1%nat 2%nat).2 = Exits /\
   heap_controllers
     (JedecDRAMSystem_new (CM := QueueController)
        Process_init example_hmc_config 1%nat 2%nat).1 = 0%nat) /\
  (exists s : JedecDRAMSystem (list Transaction),
     (JedecDRAMSystem_new Process_init example_config 1%nat 2%nat).2 = Returns s /\
     ctrls_ s = (fun i => ctrl_new i example_config 1%nat 2%nat) <$> seqZ 0 2 /\
     length (ctrls_ s) = 2%nat /\
     heap_controllers
       (JedecDRAMSystem_new (CM := QueueController)
          Process_init example_config 1%nat 2%nat).1 = 2%nat).
Proof.
  split.
  - apply (proj1 (JedecDRAMSystem_new_controllers (CM := QueueController)
                    Process_init example_hmc_config 1%nat 2%nat)).
    reflexivity.
  - apply (proj2 (JedecDRAMSystem_new_controllers (CM := QueueController)
                    Process_init example_config 1%nat 2%nat)).
    + reflexivity.
    + simpl. lia.
Defined.

(** Four ticks of [example_jedec] (epoch of 4): the fourth, and only the
    fourth, appends one row per controller. *)
Example Jedec_four_ticks :
  match Jedec_run false example_jedec [CallTick; CallTick; CallTick],
        Jedec_run false example_jedec [CallTick; CallTick; CallTick; CallTick]
  with
  | Returns s3, Returns s4 =>
    rows (epoch_csv_file_ (jedec_base s3)) = [] /\
    rows (epoch_csv_file_ (jedec_base s4)) = ["epoch"; "epoch"]%string
  | _, _ => False
  end.
Proof. vm_compute. split; reflexivity. Qed.

(** The fourth tick of [example_jedec]: an epoch boundary. *)
Lemma Jedec_ClockTick_epoch_rows_witness :
  exists s' : JedecDRAMSystem (list Transaction),
    Jedec_ClockTick example_jedec_tick3 = Returns s' /\
    clk_ (jedec_base s') = wrap64 (clk_ (jedec_base example_jedec_tick3) + 1) /\
    length (ctrls_ s') = length (ctrls_ example_jedec_tick3) /\
    rows (epoch_csv_file_ (jedec_base s')) =
      rows (epoch_csv_file_ (jedec_base example_jedec_tick3)) ++
      (if clk_ (jedec_base s')
            mod epoch_period (config_ (jedec_base example_jedec_tick3)) =? 0
       then ctrl_epoch_row <$> (ctrl_ClockTick <$> ctrls_ example_jedec_tick3)
       else []).
Proof.
  apply (Jedec_ClockTick_epoch_rows (CM := QueueController) example_jedec_tick3).
  simpl. lia.
Defined.

(** Admission on [example_jedec]: address 0 decodes to channel 0, whose
    empty queue accepts; once that queue is full the same submit is
    rejected, by a [false] under NDEBUG and by the end of the process
    otherwise. *)
Lemma Jedec_AddTransaction_admission_witness :
  Jedec_AddTransaction false example_jedec 0 false =
    Returns (true, example_jedec_full) /\
  Jedec_AddTransaction true example_jedec_full 0 false =
    Returns (false, example_jedec_full) /\
  Jedec_AddTransaction false example_jedec_full 0 false = Exits.
Proof.
  split; [|split].
  - apply (proj1 (proj2 (Jedec_AddTransaction_admission (CM := QueueController)
                           false example_jedec 0 false [] eq_refl))).
    reflexivity.
  - apply (proj2 (proj2 (Jedec_AddTransaction_admission (CM := QueueController)
                           true example_jedec_full 0 false
                           [Transaction_new 0 false] eq_refl))).
    reflexivity.
  - apply (proj2 (proj2 (Jedec_AddTransaction_admission (CM := QueueController)
                           false example_jedec_full 0 false
                           [Transaction_new 0 false] eq_refl))).
    reflexivity.
Defined.

(** C3, as stated, fails: with assertions compiled in, submitting to a
    channel whose controller rejects does not return [false]; the call does
    not return at all. *)
Lemma Jedec_AddTransaction_rejection_exits :
  Jedec_WillAcceptTransaction example_jedec_full 0 false = Returns false /\
  Jedec_AddTransaction false example_jedec_full 0 false = Exits /\
  ~ (exists r, Jedec_AddTransaction false example_jedec_full 0 false = Returns r).
Proof.
  repeat split; try reflexivity. intros [r Hr]. discriminate Hr.
Qed.

(** ** The clock *)

Lemma wrap64_range z : 0 <= wrap64 z < 2 ^ 64.
Proof. unfold wrap64. apply Z.mod_pos_bound. lia. Qed.

Lemma wrap64_small z : 0 <= z < 2 ^ 64 -> wrap64 z = z.
Proof. unfold wrap64. apply Z.mod_small. Qed.

Lemma wrap64_add_l a b : wrap64 (wrap64 a + b) = wrap64 (a + b).
Proof. unfold wrap64. apply Zplus_mod_idemp_l. Qed.

Lemma IdealCall_ticks_cons c cs :
  IdealCall_ticks (c :: cs) =
  (if is_IdealTick c then 1 else 0) + IdealCall_ticks cs.
Proof.
  unfold IdealCall_ticks. rewrite filter_cons.
  destruct (is_IdealTick c); simpl; lia.
Qed.

Lemma Call_ticks_cons c cs :
  Call_ticks (c :: cs) = (if is_CallTick c then 1 else 0) + Call_ticks cs.
Proof.
  unfold Call_ticks. rewrite filter_cons.
  destruct (is_CallTick c); simpl; lia.
Qed.

Lemma IdealCall_ticks_nonneg cs : 0 <= IdealCall_ticks cs.
Proof. unfold IdealCall_ticks. lia. Qed.

Lemma Call_ticks_nonneg cs : 0 <= Call_ticks cs.
Proof. unfold Call_ticks. lia. Qed.

Lemma IdealCall_ticks_app cs1 cs2 :
  IdealCall_ticks (cs1 ++ cs2) = IdealCall_ticks cs1 + IdealCall_ticks cs2.
Proof.
  unfold IdealCall_ticks. rewrite filter_app, length_app. lia.
Qed.

Lemma Call_ticks_app cs1 cs2 :
  Call_ticks (cs1 ++ cs2) = Call_ticks cs1 + Call_ticks cs2.
Proof. unfold Call_ticks. rewrite filter_app, length_app. lia. Qed.

Lemma Ideal_call_clk s c :
  clk_ (ideal_base (Ideal_call s c).1) =
  if is_IdealTick c then wrap64 (clk_ (ideal_base s) + 1)
  else clk_ (ideal_base s).
Proof.
  destruct c; simpl; try reflexivity.
  rewrite Ideal_ClockTick_scan. reflexivity.
Qed.

Lemma Ideal_run_cons s c cs :
  (Ideal_run s (c :: cs)).1 = (Ideal_run (Ideal_call s c).1 cs).1.
Proof.
  simpl. destruct (Ideal_call s c) as [s1 evs]. simpl.
  destruct (Ideal_run s1 cs). reflexivity.
Qed.

Lemma Ideal_run_app s cs1 cs2 :
  (Ideal_run s (cs1 ++ cs2)).1 = (Ideal_run (Ideal_run s cs1).1 cs2).1.
Proof.
  revert s. induction cs1 as [|c cs1 IH]; intros s; [reflexivity|].
  rewrite <- app_comm_cons, !Ideal_run_cons. apply IH.
Qed.

Lemma Ideal_run_clk cs : forall s,
  0 <= clk_ (ideal_base s) < 2 ^ 64 ->
  clk_ (ideal_base (Ideal_run s cs).1) =
  wrap64 (clk_ (ideal_base s) + IdealCall_ticks cs).
Proof.
  induction cs as [|c cs IH]; intros s Hs.
  - simpl. rewrite Z.add_0_r, wrap64_small by lia. reflexivity.
  - rewrite Ideal_run_cons, IdealCall_ticks_cons.
    pose proof (Ideal_call_clk s c) as Hc.
    rewrite IH; rewrite Hc; destruct (is_IdealTick c).
    + rewrite wrap64_add_l. f_equal; lia.
    + f_equal; lia.
    + apply wrap64_range.
    + exact Hs.
Qed.

Section ClockTheorems.
Context {Controller : Type} {CM : ControllerModel Controller}.

Lemma Jedec_ClockTick_clk (s s' : JedecDRAMSystem Controller) :
  Jedec_ClockTick s = Returns s' ->
  clk_ (jedec_base s') = wrap64 (clk_ (jedec_base s) + 1).
Proof.
  unfold Jedec_ClockTick.
  destruct (_ =? 0); [discriminate|].
  destruct (_ =? 0).
  - destruct (PrintEpochStats_all _ _) as [ctrls f].
    intros [= <-]. reflexivity.
  - intros [= <-]. reflexivity.
Qed.

Lemma Jedec_call_clk NDEBUG (s s' : JedecDRAMSystem Controller) c :
  Jedec_call NDEBUG s c = Returns s' ->
  clk_ (jedec_base s') =
  if is_CallTick c then wrap64 (clk_ (jedec_base s) + 1)
  else clk_ (jedec_base s).
Proof.
  destruct c; simpl.
  - destruct (Jedec_WillAcceptTransaction s hex_addr w); try discriminate.
    intros [= <-]. reflexivity.
  - unfold Jedec_AddTransaction.
    destruct (ctrl_at _ _) as [c|]; [|discriminate].
    destruct (negb NDEBUG && negb _); [discriminate|].
    destruct (ctrl_WillAcceptTransaction c hex_addr w);
      intros [= <-]; reflexivity.
  - apply Jedec_ClockTick_clk.
  - intros [= <-]. unfold Jedec_PrintStats.
    destruct (PrintFinalStats_all _ _ _ _) as [ctrls [[txt csv] histo]].
    reflexivity.
  - intros [= <-]. reflexivity.
  - intros [= <-]. reflexivity.
Qed.

Lemma Jedec_run_app NDEBUG (s : JedecDRAMSystem Controller) cs1 cs2 :
  Jedec_run NDEBUG s (cs1 ++ cs2) =
  match Jedec_run NDEBUG s cs1 with
  | Returns s1 => Jedec_run NDEBUG s1 cs2
  | other => other
  end.
Proof.
  revert s. induction cs1 as [|c cs1 IH]; intros s; [reflexivity|].
  simpl. destruct (Jedec_call NDEBUG s c); auto.
Qed.

Lemma Jedec_run_clk NDEBUG cs : forall s s' : JedecDRAMSystem Controller,
  0 <= clk_ (jedec_base s) < 2 ^ 64 ->
  Jedec_run NDEBUG s cs = Returns s' ->
  clk_ (jedec_base s') = wrap64 (clk_ (jedec_base s) + Call_ticks cs).
Proof.
  induction cs as [|c cs IH]; intros s s' Hs.
  - simpl. intros [= <-]. rewrite Z.add_0_r, wrap64_small by lia. reflexivity.
  - simpl. destruct (Jedec_call NDEBUG s c) as [s1| | |] eqn:Hc;
      try discriminate.
    intros Hrun. apply Jedec_call_clk in Hc.
    rewrite Call_ticks_cons.
    rewrite (IH s1 s'); [|rewrite Hc|exact Hrun]; [rewrite Hc|];
      destruct (is_CallTick c).
    + rewrite wrap64_add_l. f_equal; lia.
    + f_equal; lia.
    + apply wrap64_range.
    + exact Hs.
Qed.

Lemma JedecDRAMSystem_new_clk p config r w (s : JedecDRAMSystem Controller) :
  (JedecDRAMSystem_new p config r w).2 = Returns s ->
  clk_ (jedec_base s) = 0.
Proof.
  unfold JedecDRAMSystem_new. simpl.
  destruct (IsHMC config); [discriminate|].
  destruct (channels config <? 0); [discriminate|].
  simpl. intros [= <-]. reflexivity.
Qed.

(** C7. [clk_] is 0 after either constructor. A [ClockTick] of either
    variant replaces it by [clk_ + 1] in 64-bit unsigned arithmetic, once;
    [AddTransaction], [WillAcceptTransaction], [GetChannel],
    [RegisterCallbacks] and [PrintStats] leave it as it is. Hence after any
    sequence of calls on a new system holding fewer than 2^64 [ClockTick]s
    the clock equals the number of [ClockTick]s made, and it never
    decreases along the sequence. *)
Theorem clk_counts_ClockTicks :
  (forall p config r w,
     clk_ (ideal_base (IdealDRAMSystem_new p config r w).2) = 0) /\
  (forall p config r w (s : JedecDRAMSystem Controller),
     (JedecDRAMSystem_new p config r w).2 = Returns s ->
     clk_ (jedec_base s) = 0) /\
  (forall s c,
     clk_ (ideal_base (Ideal_call s c).1) =
     if is_IdealTick c then wrap64 (clk_ (ideal_base s) + 1)
     else clk_ (ideal_base s)) /\
  (forall NDEBUG (s s' : JedecDRAMSystem Controller) c,
     Jedec_call NDEBUG s c = Returns s' ->
     clk_ (jedec_base s') =
     if is_CallTick c then wrap64 (clk_ (jedec_base s) + 1)
     else clk_ (jedec_base s)) /\
  (forall p config r w cs1 cs2,
     IdealCall_ticks (cs1 ++ cs2) < 2 ^ 64 ->
     let s := (IdealDRAMSystem_new p config r w).2 in
     clk_ (ideal_base (Ideal_run s (cs1 ++ cs2)).1) =
       IdealCall_ticks (cs1 ++ cs2) /\
     clk_ (ideal_base (Ideal_run s cs1).1) <=
       clk_ (ideal_base (Ideal_run s (cs1 ++ cs2)).1)) /\
  (forall NDEBUG p config r w cs1 cs2 (s s1 s2 : JedecDRAMSystem Controller),
     Call_ticks (cs1 ++ cs2) < 2 ^ 64 ->
     (JedecDRAMSystem_new p config r w).2 = Returns s ->
     Jedec_run NDEBUG s cs1 = Returns s1 ->
     Jedec_run NDEBUG s1 cs2 = Returns s2 ->
     Jedec_run NDEBUG s (cs1 ++ cs2) = Returns s2 /\
     clk_ (jedec_base s2) = Call_ticks (cs1 ++ cs2) /\
     clk_ (jedec_base s1) <= clk_ (jedec_base s2)).
Proof.
  split; [reflexivity|].
  split; [apply JedecDRAMSystem_new_clk|].
  split; [apply Ideal_call_clk|].
  split; [apply Jedec_call_clk|].
  split.
  - intros p config r w cs1 cs2 Hlt s.
    assert (H0 : clk_ (ideal_base s) = 0) by reflexivity.
    pose proof (IdealCall_ticks_nonneg cs1).
    pose proof (IdealCall_ticks_nonneg cs2).
    rewrite IdealCall_ticks_app in *.
    rewrite !Ideal_run_clk by (rewrite H0; lia).
    rewrite H0, IdealCall_ticks_app. simpl.
    rewrite !wrap64_small by lia. lia.
  - intros NDEBUG p config r w cs1 cs2 s s1 s2 Hlt Hnew H1 H2.
    apply JedecDRAMSystem_new_clk in Hnew.
    pose proof (Call_ticks_nonneg cs1). pose proof (Call_ticks_nonneg cs2).
    rewrite Call_ticks_app in *.
    assert (H12 : Jedec_run NDEBUG s (cs1 ++ cs2) = Returns s2)
      by (rewrite Jedec_run_app, H1; exact H2).
    split; [exact H12|].
    apply Jedec_run_clk in H12; [|lia]. apply Jedec_run_clk in H1; [|lia].
    rewrite H12, H1, Hnew, Call_ticks_app. simpl.
    rewrite !wrap64_small by lia. lia.
Qed.

End ClockTheorems.

(** The clocks of the example systems: at construction, over one call, and
    over short runs of both variants. *)
Lemma clk_counts_ClockTicks_witness :
  clk_ (jedec_base example_jedec) = 0 /\
  clk_ (jedec_base example_jedec_tick1) =
    wrap64 (clk_ (jedec_base example_jedec) + 1) /\
  (clk_ (ideal_base
           (Ideal_run example_ideal
              ([IdealAdd 0 false; IdealTick] ++
               [IdealTick; IdealGetChannel 0; IdealTick])).1) =
     IdealCall_ticks ([IdealAdd 0 false; IdealTick] ++
                      [IdealTick; IdealGetChannel 0; IdealTick]) /\
   clk_ (ideal_base (Ideal_run example_ideal [IdealAdd 0 false; IdealTick]).1) <=
     clk_ (ideal_base
             (Ideal_run example_ideal
                ([IdealAdd 0 false; IdealTick] ++
                 [IdealTick; IdealGetChannel 0; IdealTick])).1)) /\
  (Jedec_run false example_jedec ([CallAdd 0 true; CallTick] ++ [CallPrintStats]) =
     Returns (Jedec_PrintStats example_jedec_tick1) /\
   clk_ (jedec_base (Jedec_PrintStats example_jedec_tick1)) =
     Call_ticks ([CallAdd 0 true; CallTick] ++ [CallPrintStats]) /\
   clk_ (jedec_base example_jedec_tick1) <=
     clk_ (jedec_base (Jedec_PrintStats example_jedec_tick1))).
Proof.
  pose proof (clk_counts_ClockTicks (CM := QueueController))
    as (_ & Hnew & _ & Hcall & Hideal & Hjedec).
  split; [|split; [|split]].
  - apply (Hnew Process_init example_config 1%nat 2%nat). reflexivity.
  - apply (Hcall false example_jedec example_jedec_tick1 CallTick).
    reflexivity.
  - apply (Hideal Process_init example_config 1%nat 2%nat
             [IdealAdd 0 false; IdealTick]
             [IdealTick; IdealGetChannel 0; IdealTick]).
    vm_compute. reflexivity.
  - apply (Hjedec false Process_init example_config 1%nat 2%nat
             [CallAdd 0 true; CallTick] [CallPrintStats]
             example_jedec example_jedec_tick1).
    + vm_compute. reflexivity.
    + reflexivity.
    + reflexivity.
    + reflexivity.
Defined.

(** ** The process-wide channel tally *)

Lemma wrap_int_small z : INT_MIN <= z <= INT_MAX -> wrap_int z = z.
Proof.
  unfold INT_MIN, INT_MAX, wrap_int. intros H.
  rewrite Z.mod_small by lia. lia.
Qed.

Lemma constructed_channels_cons op ops :
  constructed_channels (op :: ops) = op_channels op + constructed_channels ops.
Proof. reflexivity. Qed.

Lemma constructed_channels_app ops1 ops2 :
  constructed_channels (ops1 ++ ops2) =
  constructed_channels ops1 + constructed_channels ops2.
Proof.
  induction ops1 as [|op ops1 IH]; [reflexivity|].
  rewrite <- app_comm_cons, !constructed_channels_cons, IH. lia.
Qed.

Lemma constructed_channels_nonneg ops :
  Forall (fun op => 0 <= op_channels op) ops -> 0 <= constructed_channels ops.
Proof.
  induction 1 as [|op ops Hop _ IH]; [reflexivity|].
  rewrite constructed_channels_cons. lia.
Qed.

Section TallyTheorems.
Context {Controller : Type} {CM : ControllerModel Controller}.

Lemma world_step_stopped NDEBUG (w : World Controller) op :
  running w = false -> world_step NDEBUG w op = w.
Proof. intros H. unfold world_step. rewrite H. reflexivity. Qed.

Lemma world_run_stopped NDEBUG (w : World Controller) ops :
  running w = false -> world_run NDEBUG w ops = w.
Proof.
  intros H. induction ops as [|op ops IH]; [reflexivity|].
  unfold world_run in *. simpl. rewrite world_step_stopped by exact H.
  exact IH.
Qed.

Lemma world_run_running NDEBUG (w : World Controller) ops :
  running (world_run NDEBUG w ops) = true -> running w = true.
Proof.
  destruct (running w) eqn:E; [reflexivity|].
  rewrite world_run_stopped by exact E. rewrite E. discriminate.
Qed.

Lemma world_run_app NDEBUG (w : World Controller) ops1 ops2 :
  world_run NDEBUG w (ops1 ++ ops2) =
  world_run NDEBUG (world_run NDEBUG w ops1) ops2.
Proof. unfold world_run. apply foldl_app. Qed.

(** Only a constructor touches [total_channels_]: it adds its channel
    count, in [int] arithmetic. *)
Lemma world_step_total NDEBUG (w : World Controller) op :
  running w = true ->
  total_channels_ (process (world_step NDEBUG w op)) =
  match op with
  | NewJedec config _ _ | NewIdeal config _ _ =>
    wrap_int (total_channels_ (process w) + channels config)
  | _ => total_channels_ (process w)
  end.
Proof.
  intros H. unfold world_step. rewrite H. simpl. destruct op.
  - unfold JedecDRAMSystem_new. simpl.
    destruct (IsHMC config); [reflexivity|].
    destruct (channels config <? 0); reflexivity.
  - reflexivity.
  - destruct (objects w !! i) as [[s|s]|]; reflexivity.
  - destruct (objects w !! i) as [[s|s]|]; try reflexivity.
    destruct (Jedec_call NDEBUG s c); reflexivity.
  - destruct (objects w !! i) as [[s|s]|]; reflexivity.
Qed.

Lemma world_run_total NDEBUG ops : forall w : World Controller,
  running (world_run NDEBUG w ops) = true ->
  Forall (fun op => 0 <= op_channels op) ops ->
  INT_MIN <= total_channels_ (process w) ->
  total_channels_ (process w) + constructed_channels ops <= INT_MAX ->
  total_channels_ (process (world_run NDEBUG w ops)) =
  total_channels_ (process w) + constructed_channels ops.
Proof.
  induction ops as [|op ops IH]; intros w Hrun Hpos Hmin Hmax.
  - simpl. unfold constructed_channels. simpl. lia.
  - pose proof (world_run_running _ _ _ Hrun) as Hw.
    change (world_run NDEBUG w (op :: ops)) with
      (world_run NDEBUG (world_step NDEBUG w op) ops) in *.
    inversion Hpos as [|? ? Hop Hops]; subst.
    pose proof (constructed_channels_nonneg _ Hops) as Hrest.
    rewrite constructed_channels_cons in *.
    assert (Hstep : total_channels_ (process (world_step NDEBUG w op)) =
                    total_channels_ (process w) + op_channels op).
    { rewrite world_step_total by exact Hw.
      destruct op; simpl in *; try lia; apply wrap_int_small; lia. }
    rewrite IH; try assumption; rewrite Hstep; lia.
Qed.

(** C8. Along any sequence of driver operations that the process survives
    -- constructions of either variant, destructions and method calls, in
    any order -- [total_channels_] ends at its initial value plus the sum
    of the channel counts of the systems constructed, as long as that sum
    fits an [int]; and it never decreases on the way, the channel counts
    being non-negative. *)
Theorem total_channels_accumulates NDEBUG (w : World Controller)
    (ops : list Op) :
  running (world_run NDEBUG w ops) = true ->
  Forall (fun op => 0 <= op_channels op) ops ->
  INT_MIN <= total_channels_ (process w) ->
  total_channels_ (process w) + constructed_channels ops <= INT_MAX ->
  total_channels_ (process (world_run NDEBUG w ops)) =
    total_channels_ (process w) + constructed_channels ops /\
  (forall ops1 ops2, ops = ops1 ++ ops2 ->
     total_channels_ (process (world_run NDEBUG w ops1)) <=
     total_channels_ (process (world_run NDEBUG w ops))).
Proof.
  intros Hrun Hpos Hmin Hmax. split.
  - apply world_run_total; assumption.
  - intros ops1 ops2 ->.
    apply Forall_app in Hpos as [Hpos1 Hpos2].
    pose proof (constructed_channels_nonneg _ Hpos1).
    pose proof (constructed_channels_nonneg _ Hpos2).
    rewrite constructed_channels_app in Hmax.
    rewrite world_run_app in *.
    pose proof (world_run_running _ _ _ Hrun) as Hrun1.
    pose proof (world_run_total NDEBUG ops1 w Hrun1 Hpos1 Hmin) as H1.
    rewrite (world_run_total NDEBUG ops2 _ Hrun Hpos2); rewrite H1; lia.
Qed.

End TallyTheorems.

(** Two constructions, calls on both systems and a destruction. *)
Lemma total_channels_accumulates_witness :
  let ops := [NewIdeal example_config 1%nat 2%nat;
              NewJedec example_config 1%nat 2%nat;
              OnIdeal 0 (IdealAdd 0 false); OnJedec 1 CallTick;
              Delete 0; OnJedec 0 (CallAdd 64 true)] in
  total_channels_ (process (world_run (CM := QueueController) false World_init ops)) =
    total_channels_ (process (World_init (Controller := list Transaction))) +
    constructed_channels ops /\
  (forall ops1 ops2, ops = ops1 ++ ops2 ->
     total_channels_ (process (world_run (CM := QueueController) false World_init ops1)) <=
     total_channels_ (process (world_run (CM := QueueController) false World_init ops))).
Proof.
  apply (total_channels_accumulates (CM := QueueController) false World_init).
  - vm_compute. reflexivity.
  - repeat constructor; simpl; lia.
  - vm_compute. discriminate.
  - vm_compute. discriminate.
Defined.

(** * Further properties of the code *)

(** ** The ideal model over whole runs *)

Lemma due_aged clk L t :
  0 <= added_cycle t <= clk -> clk < 2 ^ 64 ->
  (due clk L t = true <-> added_cycle t + wrap64 L <= clk).
Proof.
  intros Ha Hc. unfold due.
  rewrite (wrap64_small (clk - added_cycle t)) by lia.
  rewrite Z.leb_le. lia.
Qed.

Lemma completion_addr b t : exists cb, completion b t = Invoke cb (addr t).
Proof. unfold completion. destruct (is_write t); eexists; reflexivity. Qed.

Lemma Ideal_run_cons_trace s c cs :
  (Ideal_run s (c :: cs)).2 =
  map (fun e => (clk_ (ideal_base s), e)) (Ideal_call s c).2 ++
  (Ideal_run (Ideal_call s c).1 cs).2.
Proof.
  simpl. destruct (Ideal_call s c) as [s1 evs]. simpl.
  destruct (Ideal_run s1 cs). reflexivity.
Qed.

Lemma ClockTick_scan_lengths b L q :
  (length (ClockTick_scan b L q).1 + length (ClockTick_scan b L q).2)%nat =
  length q.
Proof.
  rewrite ClockTick_scan_trace, length_fmap.
  rewrite (Permutation_length (ClockTick_scan_split b L q)), length_app.
  reflexivity.
Qed.

Lemma Ideal_submissions_length clk clk' cs :
  length (Ideal_submissions clk cs) = length (Ideal_submissions clk' cs).
Proof.
  revert clk clk'. induction cs as [|c cs IH]; intros clk clk'; [reflexivity|].
  destruct c; simpl; auto.
Qed.

(** X1. The loop of [IdealDRAMSystem::ClockTick] always reaches [end()]:
    [length q + 1] iterations are enough for every queue, and iterating
    longer changes nothing. *)
Theorem ClockTick_loop_terminates b L (q : list Transaction) (extra : nat) :
  is_Some (ClockTick_loop (S (length q)) b L q 0 []) /\
  ClockTick_loop (S (length q + extra)) b L q 0 [] =
  ClockTick_loop (S (length q)) b L q 0 [].
Proof.
  pose proof (ClockTick_loop_scan b L q (S (length q)) [] []) as H1.
  pose proof (ClockTick_loop_scan b L q (S (length q + extra)) [] []) as H2.
  change ([] ++ q) with q in *. change (length []) with 0%nat in *.
  rewrite H1, H2 by lia. split; [eexists|]; reflexivity.
Qed.

Lemma Ideal_call_conserves s c :
  (length (infinite_buffer_q_ (Ideal_call s c).1) +
   length (Ideal_call s c).2)%nat =
  (length (infinite_buffer_q_ s) +
   length (Ideal_submissions 0 [c]))%nat.
Proof.
  destruct c; simpl.
  - rewrite length_app. simpl. lia.
  - rewrite Ideal_ClockTick_scan. simpl.
    rewrite ClockTick_scan_lengths. lia.
  - lia.
  - lia.
Qed.

Lemma Ideal_run_lengths (cs : list IdealCall) (s : IdealDRAMSystem) :
  (length (infinite_buffer_q_ (Ideal_run s cs).1) +
   length (Ideal_run s cs).2)%nat =
  (length (infinite_buffer_q_ s) +
   length (Ideal_submissions (clk_ (ideal_base s)) cs))%nat.
Proof.
  revert s. induction cs as [|c cs IH]; intros s.
  - simpl. lia.
  - rewrite Ideal_run_cons, Ideal_run_cons_trace, length_app, length_map.
    specialize (IH (Ideal_call s c).1).
    pose proof (Ideal_call_conserves s c) as Hc.
    rewrite (Ideal_submissions_length _ 0) in IH.
    rewrite (Ideal_submissions_length _ 0 (c :: cs)).
    assert (Hsub : length (Ideal_submissions 0 (c :: cs)) =
                   (length (Ideal_submissions 0 [c]) +
                    length (Ideal_submissions 0 cs))%nat).
    { destruct c; simpl; try reflexivity.
      apply (Ideal_submissions_length 1 0). }
    lia.
Qed.

Lemma Ideal_submissions_requests clk clk' cs :
  snd <$> Ideal_submissions clk cs = snd <$> Ideal_submissions clk' cs.
Proof.
  revert clk clk'. induction cs as [|c cs IH]; intros clk clk'; [reflexivity|].
  destruct c; simpl; auto. f_equal. apply IH.
Qed.

Lemma Ideal_run_submitted_requests (cs : list IdealCall) :
  forall s : IdealDRAMSystem,
  (fun t => (addr t, is_write t)) <$> Ideal_run_submitted s cs =
    snd <$> Ideal_submissions (clk_ (ideal_base s)) cs.
Proof.
  induction cs as [|c cs IH]; intros s; [reflexivity|].
  cbn [Ideal_run_submitted]. rewrite fmap_app, IH.
  destruct c; simpl; try reflexivity;
    apply Ideal_submissions_requests.
Qed.

Lemma Ideal_call_accounts s c :
  infinite_buffer_q_ s ++ Ideal_call_submitted s c ≡ₚ
    infinite_buffer_q_ (Ideal_call s c).1 ++ Ideal_call_erased s c /\
  (Ideal_call s c).2 = completion (ideal_base s) <$> Ideal_call_erased s c.
Proof.
  destruct c; cbn [Ideal_call Ideal_call_submitted Ideal_call_erased].
  - split; [|reflexivity]. simpl. rewrite app_nil_r. reflexivity.
  - rewrite Ideal_ClockTick_scan. cbn [fst snd infinite_buffer_q_].
    rewrite app_nil_r. split.
    + apply ClockTick_scan_split.
    + apply ClockTick_scan_trace.
  - split; reflexivity.
  - split; reflexivity.
Qed.

Lemma Ideal_run_accounts (cs : list IdealCall) : forall s : IdealDRAMSystem,
  infinite_buffer_q_ s ++ Ideal_run_submitted s cs ≡ₚ
    infinite_buffer_q_ (Ideal_run s cs).1 ++ (Ideal_run_erased s cs).*2 /\
  (Ideal_run s cs).2 =
    (fun bt => (clk_ bt.1, completion bt.1 bt.2)) <$> Ideal_run_erased s cs.
Proof.
  induction cs as [|c cs IH]; intros s.
  - split; reflexivity.
  - destruct (Ideal_call_accounts s c) as [Hq Htr].
    destruct (IH (Ideal_call s c).1) as [IHq IHtr].
    rewrite Ideal_run_cons, Ideal_run_cons_trace.
    cbn [Ideal_run_submitted Ideal_run_erased]. split.
    + rewrite fmap_app, <- list_fmap_compose.
      rewrite (list_fmap_ext _ id (Ideal_call_erased s c))
        by (intros; reflexivity).
      rewrite list_fmap_id.
      rewrite (app_assoc (infinite_buffer_q_ s)), Hq.
      rewrite <- (app_assoc _ (Ideal_call_erased s c)).
      rewrite (Permutation_app_comm (Ideal_call_erased s c)).
      rewrite (app_assoc _ _ (Ideal_call_erased s c)), IHq.
      rewrite <- (app_assoc _ _ (Ideal_call_erased s c)).
      rewrite (Permutation_app_comm _ (Ideal_call_erased s c)).
      reflexivity.
    + rewrite fmap_app, <- list_fmap_compose, IHtr, Htr.
      rewrite <- list_fmap_compose. reflexivity.
Qed.

(** X2. Conservation in the ideal model: over any sequence of calls, the
    transactions queued at the start together with those submitted are,
    counted with multiplicity, the transactions still queued together with
    those erased; and the callbacks invoked are one per erased transaction,
    in order of erasure, each the matching callback registered at that
    [ClockTick], with that transaction's address, at that tick. No
    transaction is lost and none is reported twice. *)
Theorem Ideal_run_conserves (cs : list IdealCall) (s : IdealDRAMSystem) :
  infinite_buffer_q_ s ++ Ideal_run_submitted s cs ≡ₚ
    infinite_buffer_q_ (Ideal_run s cs).1 ++ (Ideal_run_erased s cs).*2 /\
  (Ideal_run s cs).2 =
    (fun bt => (clk_ bt.1, completion bt.1 bt.2)) <$> Ideal_run_erased s cs /\
  (fun t => (addr t, is_write t)) <$> Ideal_run_submitted s cs =
    snd <$> Ideal_submissions (clk_ (ideal_base s)) cs.
Proof.
  destruct (Ideal_run_accounts cs s) as [Hq Htr].
  split; [exact Hq|]. split; [exact Htr|].
  apply Ideal_run_submitted_requests.
Qed.

Lemma ClockTick_erased_elem b L q t :
  t ∈ ClockTick_erased b L q -> t ∈ q /\ due (clk_ b) L t = true.
Proof.
  intros Hin. split.
  - rewrite (ClockTick_scan_split b L q). apply elem_of_app. right. exact Hin.
  - pose proof (ClockTick_erased_due b L q) as Hd.
    rewrite Forall_forall in Hd. apply Hd. exact Hin.
Qed.

Lemma ClockTick_scan_kept_elem b L q t :
  t ∈ (ClockTick_scan b L q).1 -> t ∈ q.
Proof.
  intros Hin. rewrite (ClockTick_scan_split b L q).
  apply elem_of_app. left. exact Hin.
Qed.

Lemma Ideal_call_latency s c : latency_ (Ideal_call s c).1 = latency_ s.
Proof.
  destruct c; simpl; try reflexivity.
  rewrite Ideal_ClockTick_scan. reflexivity.
Qed.

Lemma Ideal_call_clk_small s c :
  0 <= clk_ (ideal_base s) ->
  clk_ (ideal_base s) + (if is_IdealTick c then 1 else 0) < 2 ^ 64 ->
  clk_ (ideal_base (Ideal_call s c).1) =
  clk_ (ideal_base s) + (if is_IdealTick c then 1 else 0).
Proof.
  intros H0 H1. rewrite Ideal_call_clk.
  destruct (is_IdealTick c); [apply wrap64_small|]; lia.
Qed.

(** What one call leaves in the queue was there before, or is the
    transaction just submitted. *)
Lemma Ideal_call_queue_elem s c t :
  t ∈ infinite_buffer_q_ (Ideal_call s c).1 ->
  t ∈ infinite_buffer_q_ s \/
  (exists a w, c = IdealAdd a w /\ t = stamped (clk_ (ideal_base s)) (a, w)).
Proof.
  destruct c; simpl; auto.
  - intros Hin. apply elem_of_app in Hin as [Hin|Hin]; [left; exact Hin|].
    apply list_elem_of_singleton in Hin. right. eauto.
  - rewrite Ideal_ClockTick_scan. simpl. intros Hin. left.
    eapply ClockTick_scan_kept_elem. exact Hin.
Qed.

Lemma Ideal_submissions_cons clk c cs x :
  x ∈ Ideal_submissions (clk + (if is_IdealTick c then 1 else 0)) cs ->
  x ∈ Ideal_submissions clk (c :: cs).
Proof.
  destruct c; simpl; rewrite ?Z.add_0_r; auto. intros H. right. exact H.
Qed.

(** Every callback of a run answers a transaction that was queued at the
    start or submitted during the run, and comes no earlier than the
    latency after that transaction's stamp. *)
Lemma Ideal_run_not_early cs : forall s c cb a,
  0 <= clk_ (ideal_base s) ->
  clk_ (ideal_base s) + IdealCall_ticks cs < 2 ^ 64 ->
  Forall (fun t => 0 <= added_cycle t <= clk_ (ideal_base s))
         (infinite_buffer_q_ s) ->
  (c, Invoke cb a) ∈ (Ideal_run s cs).2 ->
  (exists t, t ∈ infinite_buffer_q_ s /\ addr t = a /\
             added_cycle t + wrap64 (latency_ s) <= c) \/
  (exists T dir, (T, (a, dir)) ∈ Ideal_submissions (clk_ (ideal_base s)) cs /\
                 T + wrap64 (latency_ s) <= c).
Proof.
  induction cs as [|call cs IH]; intros s c cb a Hclk Hticks Hq Hin.
  - simpl in Hin. inversion Hin.
  - rewrite Ideal_run_cons_trace in Hin. rewrite IdealCall_ticks_cons in Hticks.
    pose proof (IdealCall_ticks_nonneg cs) as Hnn.
    rewrite Forall_forall in Hq.
    apply elem_of_app in Hin as [Hnow|Hlater].
    + (* a callback of this very call: only [ClockTick] makes any *)
      apply list_elem_of_In, in_map_iff in Hnow as (e & He & Hev).
      apply list_elem_of_In in Hev.
      destruct call; simpl in Hev; try (inversion Hev; fail).
      rewrite Ideal_ClockTick_scan in Hev. simpl in Hev.
      rewrite ClockTick_scan_trace in Hev.
      apply list_elem_of_fmap in Hev as (t & -> & Ht).
      apply ClockTick_erased_elem in Ht as [Htq Hdue].
      injection He as <- Hinv.
      destruct (completion_addr (ideal_base s) t) as [cb' Hcb].
      rewrite Hcb in Hinv. injection Hinv as _ <-.
      left. exists t. split; [exact Htq|]. split; [reflexivity|].
      specialize (Hq t Htq).
      apply due_aged in Hdue; simpl in Hticks; lia.
    + assert (Hclk1 := Ideal_call_clk_small s call Hclk
                         ltac:(destruct (is_IdealTick call); lia)).
      destruct (IH (Ideal_call s call).1 c cb a) as
          [(t & Ht & Ha & Hle)|(T & dir & HT & Hle)].
      * rewrite Hclk1. destruct (is_IdealTick call); lia.
      * rewrite Hclk1. destruct (is_IdealTick call); lia.
      * rewrite Forall_forall. intros t Ht. rewrite Hclk1.
        apply Ideal_call_queue_elem in Ht as [Ht|(a' & w' & _ & ->)].
        -- specialize (Hq t Ht). destruct (is_IdealTick call); lia.
        -- simpl. destruct (is_IdealTick call); lia.
      * exact Hlater.
      * rewrite Ideal_call_latency in Hle.
        apply Ideal_call_queue_elem in Ht as [Ht|(a' & w' & -> & ->)].
        -- left. exists t. auto.
        -- simpl in Ha, Hle. subst a'. right.
           exists (clk_ (ideal_base s)), w'. split; [left|exact Hle].
      * rewrite Ideal_call_latency in Hle. rewrite Hclk1 in HT.
        right. exists T, dir. split; [|exact Hle].
        apply Ideal_submissions_cons. exact HT.
Qed.

(** X3. No callback of the ideal model comes early: in any run of a new
    ideal system with fewer than 2^64 ticks, a callback invoked with
    address [a] during the [ClockTick] at tick [c] answers an
    [AddTransaction] for [a] made at some tick [T] of the run with
    [T + latency <= c], the latency read as [uint64_t]. *)
Theorem Ideal_completion_not_early (p : Process) (config : Config)
    (r w : Callback) (cs : list IdealCall) (c : Z) (cb : Callback) (a : Z) :
  IdealCall_ticks cs < 2 ^ 64 ->
  (c, Invoke cb a) ∈ (Ideal_run (IdealDRAMSystem_new p config r w).2 cs).2 ->
  exists T dir,
    (T, (a, dir)) ∈ Ideal_submissions 0 cs /\
    T + wrap64 (ideal_memory_latency config) <= c.
Proof.
  intros Hticks Hin.
  destruct (Ideal_run_not_early cs (IdealDRAMSystem_new p config r w).2 c cb a)
    as [(t & Ht & _)|H]; simpl; try lia; try assumption.
  - constructor.
  - inversion Ht.
Qed.

(** The run of two reads that complete one tick apart, read at its second
    callback. *)
Lemma Ideal_completion_not_early_witness :
  exists T dir,
    (T, (8192, dir)) ∈
      Ideal_submissions 0
        [IdealAdd 4096 false; IdealAdd 8192 false;
         IdealTick; IdealTick; IdealTick; IdealTick; IdealTick] /\
    T + wrap64 (ideal_memory_latency example_config) <= 4.
Proof.
  apply (Ideal_completion_not_early Process_init example_config 1%nat 2%nat
           [IdealAdd 4096 false; IdealAdd 8192 false;
            IdealTick; IdealTick; IdealTick; IdealTick; IdealTick]
           4 1%nat 8192).
  - vm_compute. reflexivity.
  - vm_compute. right. left.
Defined.

(** ** How much one tick completes *)

Lemma ClockTick_scan_at_most_every_other b L q :
  (2 * length (ClockTick_scan b L q).2 <= S (length q))%nat.
Proof.
  induction q as [|t|t t' rest IH1 IH2] using list_pair_ind.
  - simpl. lia.
  - simpl. destruct (due (clk_ b) L t); simpl; lia.
  - rewrite ClockTick_scan_cons2.
    destruct (due (clk_ b) L t); cbn [fst snd length] in *; lia.
Qed.

Lemma ClockTick_scan_all_due b L q :
  Forall (fun t => due (clk_ b) L t = true) q ->
  length (ClockTick_scan b L q).1 = (length q / 2)%nat.
Proof.
  induction q as [|t|t t' rest IH1 IH2] using list_pair_ind; intros Hall.
  - reflexivity.
  - inversion Hall as [|? ? Hd _]; subst. simpl. rewrite Hd. reflexivity.
  - inversion Hall as [|? ? Hd Hrest]; subst.
    inversion Hrest as [|? ? _ Hrest']; subst.
    rewrite ClockTick_scan_cons2, Hd. cbn [fst length].
    rewrite IH1 by exact Hrest'.
    change (S (S (length rest))) with (1 * 2 + length rest)%nat.
    rewrite Nat.add_comm, Nat.div_add by lia. lia.
Qed.

(** X4. One [IdealDRAMSystem::ClockTick] never completes two neighbours of
    the queue: it invokes at most half of the queue's length, rounded up,
    callbacks; and when every queued transaction is due it keeps exactly
    half of them, rounded down, for a later tick. *)
Theorem Ideal_ClockTick_at_most_every_other (s : IdealDRAMSystem) :
  (2 * length (Ideal_ClockTick s).2 <= S (length (infinite_buffer_q_ s)))%nat /\
  (Forall (fun t => due (clk_ (ideal_base s)) (latency_ s) t = true)
          (infinite_buffer_q_ s) ->
   length (infinite_buffer_q_ (Ideal_ClockTick s).1) =
   (length (infinite_buffer_q_ s) / 2)%nat).
Proof.
  rewrite Ideal_ClockTick_scan. simpl. split.
  - apply ClockTick_scan_at_most_every_other.
  - apply ClockTick_scan_all_due.
Qed.

(** Three reads submitted together, at the tick they fall due: two
    callbacks, one read kept. *)
Lemma Ideal_ClockTick_at_most_every_other_witness :
  let s := (Ideal_run example_ideal
              [IdealAdd 1 false; IdealAdd 2 false; IdealAdd 3 false;
               IdealTick; IdealTick; IdealTick]).1 in
  length (infinite_buffer_q_ (Ideal_ClockTick s).1) =
  (length (infinite_buffer_q_ s) / 2)%nat.
Proof.
  apply (proj2 (Ideal_ClockTick_at_most_every_other
                  (Ideal_run example_ideal
                     [IdealAdd 1 false; IdealAdd 2 false; IdealAdd 3 false;
                      IdealTick; IdealTick; IdealTick]).1)).
  apply Forall_forall. intros t Ht. vm_compute in Ht.
  repeat (apply elem_of_cons in Ht as [->|Ht]; [vm_compute; reflexivity|]).
  inversion Ht.
Defined.

(** With every queued transaction stamped no later than [clk - latency],
    each tick halves the queue. *)
Lemma Ideal_ticks_drain n : forall s,
  0 <= clk_ (ideal_base s) ->
  clk_ (ideal_base s) + Z.of_nat n < 2 ^ 64 ->
  Forall (fun t => 0 <= added_cycle t /\
                   added_cycle t + wrap64 (latency_ s) <= clk_ (ideal_base s))
         (infinite_buffer_q_ s) ->
  length (infinite_buffer_q_ (Ideal_run s (replicate n IdealTick)).1) =
  (length (infinite_buffer_q_ s) / 2 ^ n)%nat.
Proof.
  induction n as [|n IH]; intros s Hclk Hn Hq.
  - cbn [replicate Ideal_run fst]. rewrite Nat.pow_0_r, Nat.div_1_r.
    reflexivity.
  - cbn [replicate]. rewrite Ideal_run_cons.
    pose proof (wrap64_range (latency_ s)) as HL.
    assert (Hdue : Forall (fun t => due (clk_ (ideal_base s)) (latency_ s) t = true)
                          (infinite_buffer_q_ s)).
    { eapply Forall_impl; [exact Hq|]. intros t [H0 H1]. simpl.
      apply due_aged; lia. }
    rewrite IH.
    + simpl. rewrite Ideal_ClockTick_scan. simpl.
      rewrite ClockTick_scan_all_due by exact Hdue.
      rewrite Nat.Div0.div_div. reflexivity.
    + rewrite Ideal_call_clk_small; simpl; lia.
    + rewrite Ideal_call_clk_small; simpl; lia.
    + rewrite Ideal_call_latency, Ideal_call_clk_small by (simpl; lia).
      rewrite Forall_forall in Hq |- *. intros t Ht.
      apply Ideal_call_queue_elem in Ht as [Ht|(? & ? & Hc & _)];
        [|discriminate Hc].
      specialize (Hq t Ht). simpl. lia.
Qed.

(** X5. A backlog drains by halves: when every queued transaction is due
    and nothing is submitted, [n] ticks leave the queue's length divided by
    2^n, rounded down; a backlog of [m] transactions needs more than
    log2 [m] ticks to be reported in full. *)
Theorem Ideal_backlog_halves (n : nat) (s : IdealDRAMSystem) :
  0 <= clk_ (ideal_base s) ->
  clk_ (ideal_base s) + Z.of_nat n < 2 ^ 64 ->
  Forall (fun t => 0 <= added_cycle t /\
                   added_cycle t + wrap64 (latency_ s) <= clk_ (ideal_base s))
         (infinite_buffer_q_ s) ->
  length (infinite_buffer_q_ (Ideal_run s (replicate n IdealTick)).1) =
    (length (infinite_buffer_q_ s) / 2 ^ n)%nat /\
  length (Ideal_run s (replicate n IdealTick)).2 =
    (length (infinite_buffer_q_ s) - length (infinite_buffer_q_ s) / 2 ^ n)%nat.
Proof.
  intros Hclk Hn Hq.
  pose proof (Ideal_ticks_drain n s Hclk Hn Hq) as Hlen.
  split; [exact Hlen|].
  pose proof (Ideal_run_lengths (replicate n IdealTick) s) as Hcons.
  assert (Hnone : forall clk, Ideal_submissions clk (replicate n IdealTick) = []).
  { clear. induction n as [|n IH]; intros clk; [reflexivity|]. simpl. apply IH. }
  rewrite Hnone in Hcons. simpl in Hcons. lia.
Qed.

(** Five reads due together: two ticks leave one of them queued. *)
Lemma Ideal_backlog_halves_witness :
  let s := (Ideal_run example_ideal
              [IdealAdd 1 false; IdealAdd 2 false; IdealAdd 3 false;
               IdealAdd 4 false; IdealAdd 5 false;
               IdealTick; IdealTick; IdealTick]).1 in
  length (infinite_buffer_q_ (Ideal_run s (replicate 2 IdealTick)).1) =
    (length (infinite_buffer_q_ s) / 2 ^ 2)%nat /\
  length (Ideal_run s (replicate 2 IdealTick)).2 =
    (length (infinite_buffer_q_ s) - length (infinite_buffer_q_ s) / 2 ^ 2)%nat.
Proof.
  apply (Ideal_backlog_halves 2
           (Ideal_run example_ideal
              [IdealAdd 1 false; IdealAdd 2 false; IdealAdd 3 false;
               IdealAdd 4 false; IdealAdd 5 false;
               IdealTick; IdealTick; IdealTick]).1).
  - vm_compute. discriminate.
  - vm_compute. reflexivity.
  - apply Forall_forall. intros t Ht. vm_compute in Ht.
    repeat (apply elem_of_cons in Ht as [->|Ht];
            [vm_compute; split; discriminate|]).
    inversion Ht.
Defined.

(** ** Callbacks registered late, and a transaction on its own *)

Lemma ClockTick_scan_callbacks b b' L q :
  clk_ b = clk_ b' ->
  (ClockTick_scan b L q).1 = (ClockTick_scan b' L q).1 /\
  ClockTick_erased b L q = ClockTick_erased b' L q.
Proof.
  intros Hclk.
  induction q as [|t|t t' rest [IH1 IH1'] [IH2 IH2']] using list_pair_ind.
  - split; reflexivity.
  - simpl. rewrite Hclk. destruct (due (clk_ b') L t); split; reflexivity.
  - rewrite !ClockTick_scan_cons2, !ClockTick_erased_cons2, Hclk.
    destruct (due (clk_ b') L t); cbn [fst snd].
    + rewrite IH1, IH1'. split; reflexivity.
    + rewrite IH2, IH2'. split; reflexivity.
Qed.

(** X6. [RegisterCallbacks] reaches the transactions already queued in the
    ideal model: the [ClockTick] after a re-registration completes the same
    transactions and keeps the same ones as it would have without it, and
    reports each completion through the newly registered read or write
    callback. *)
Theorem Ideal_RegisterCallbacks_then_ClockTick (s : IdealDRAMSystem)
    (r w : Callback) :
  exists erased : list Transaction,
    (Ideal_ClockTick s).2 = completion (ideal_base s) <$> erased /\
    (Ideal_ClockTick (Ideal_call s (IdealRegister r w)).1).2 =
      (fun t => Invoke (if is_write t then w else r) (addr t)) <$> erased /\
    infinite_buffer_q_ (Ideal_ClockTick (Ideal_call s (IdealRegister r w)).1).1 =
      infinite_buffer_q_ (Ideal_ClockTick s).1.
Proof.
  exists (ClockTick_erased (ideal_base s) (latency_ s) (infinite_buffer_q_ s)).
  rewrite !Ideal_ClockTick_scan. cbn [fst snd Ideal_call infinite_buffer_q_
    ideal_base latency_].
  destruct (ClockTick_scan_callbacks
              (RegisterCallbacks (ideal_base s) r w) (ideal_base s)
              (latency_ s) (infinite_buffer_q_ s) eq_refl) as [Hkept Herased].
  rewrite !ClockTick_scan_trace, Hkept, Herased.
  split; [reflexivity|]. split; [|reflexivity].
  apply list_fmap_ext. intros i t _. unfold completion. simpl.
  destruct (is_write t); reflexivity.
Qed.

Lemma Ideal_run_empty_queue n : forall s,
  infinite_buffer_q_ s = [] ->
  (Ideal_run s (replicate n IdealTick)).2 = [].
Proof.
  induction n as [|n IH]; intros s Hq; [reflexivity|].
  cbn [replicate]. rewrite Ideal_run_cons_trace.
  simpl. rewrite Ideal_ClockTick_scan, Hq. simpl.
  apply IH. reflexivity.
Qed.

(** A transaction alone in the queue waits until the clock reaches its
    stamp plus the latency, and is reported during that tick. *)
Lemma Ideal_run_alone n : forall s t,
  infinite_buffer_q_ s = [t] ->
  0 <= added_cycle t <= clk_ (ideal_base s) ->
  clk_ (ideal_base s) <= added_cycle t + wrap64 (latency_ s) ->
  added_cycle t + wrap64 (latency_ s) < 2 ^ 64 ->
  (Ideal_run s (replicate n IdealTick)).2 =
  if decide (added_cycle t + wrap64 (latency_ s) - clk_ (ideal_base s)
             < Z.of_nat n)
  then [(added_cycle t + wrap64 (latency_ s), completion (ideal_base s) t)]
  else [].
Proof.
  induction n as [|n IH]; intros s t Hq Hadd Hwait Hmax.
  - simpl. destruct (decide _); [lia|reflexivity].
  - cbn [replicate]. rewrite Ideal_run_cons_trace.
    simpl. rewrite Ideal_ClockTick_scan, Hq. simpl.
    destruct (due (clk_ (ideal_base s)) (latency_ s) t) eqn:Hdue.
    + apply due_aged in Hdue; [|lia|lia].
      simpl. rewrite Ideal_run_empty_queue by reflexivity.
      destruct (decide _); [|lia].
      replace (added_cycle t + wrap64 (latency_ s)) with (clk_ (ideal_base s))
        by lia.
      reflexivity.
    + assert (Hnot : ~ added_cycle t + wrap64 (latency_ s) <= clk_ (ideal_base s)).
      { intros Hle. apply (due_aged _ (latency_ s)) in Hle; [|lia|lia].
        congruence. }
      assert (Hc1 : wrap64 (clk_ (ideal_base s) + 1) = clk_ (ideal_base s) + 1)
        by (apply wrap64_small; lia).
      simpl. rewrite (IH _ t); simpl; rewrite ?Hc1; try reflexivity; try lia.
      destruct (decide _), (decide _); try lia; reflexivity.
Qed.

(** X7. The latency law for a transaction on its own: submitted at tick
    [T] to an ideal system with an empty queue, a transaction has its
    callback invoked once, during the [ClockTick] at tick [T + latency]
    (the latency read as [uint64_t]), and at no other tick, however many
    ticks follow; a latency of 0 completes it in the tick of submission. *)
Theorem Ideal_latency_law_alone (s : IdealDRAMSystem) (a : Z) (w : bool)
    (n : nat) :
  infinite_buffer_q_ s = [] ->
  0 <= clk_ (ideal_base s) ->
  clk_ (ideal_base s) + wrap64 (latency_ s) < 2 ^ 64 ->
  (Ideal_run s (IdealAdd a w :: replicate n IdealTick)).2 =
  if decide (wrap64 (latency_ s) < Z.of_nat n)
  then [(clk_ (ideal_base s) + wrap64 (latency_ s),
         Invoke (if w then write_callback_ (ideal_base s)
                 else read_callback_ (ideal_base s)) a)]
  else [].
Proof.
  intros Hq Hclk Hmax. rewrite Ideal_run_cons_trace. simpl.
  rewrite (Ideal_run_alone n _ (stamped (clk_ (ideal_base s)) (a, w)));
    simpl; rewrite ?Hq; try reflexivity; try lia.
  - replace (clk_ (ideal_base s) + wrap64 (latency_ s) - clk_ (ideal_base s))
      with (wrap64 (latency_ s)) by lia.
    destruct (decide _); [|reflexivity].
    unfold completion. simpl. destruct w; reflexivity.
  - pose proof (wrap64_range (latency_ s)). lia.
Qed.

(** A write submitted to [example_ideal] (latency 3) at tick 0 and ten
    ticks. *)
Lemma Ideal_latency_law_alone_witness :
  (Ideal_run example_ideal (IdealAdd 4096 true :: replicate 10 IdealTick)).2 =
  if decide (wrap64 (latency_ example_ideal) < Z.of_nat 10)
  then [(clk_ (ideal_base example_ideal) + wrap64 (latency_ example_ideal),
         Invoke (if true then write_callback_ (ideal_base example_ideal)
                 else read_callback_ (ideal_base example_ideal)) 4096)]
  else [].
Proof.
  apply (Ideal_latency_law_alone example_ideal 4096 true 10).
  - reflexivity.
  - vm_compute. discriminate.
  - vm_compute. reflexivity.
Defined.

(** ** The timing-accurate model: bounds, protocol and reports *)

Section JedecFurther.
Context {Controller : Type} {CM : ControllerModel Controller}.

Lemma ctrl_at_is_Some (ctrls : list Controller) (channel : Z) :
  is_Some (ctrl_at ctrls channel) <->
  0 <= channel < Z.of_nat (length ctrls).
Proof.
  unfold ctrl_at. destruct (Z.ltb_spec channel 0) as [Hneg|Hpos].
  - split; [intros [c Hc]; discriminate|lia].
  - rewrite lookup_lt_is_Some. lia.
Qed.

Lemma ctrl_at_None (ctrls : list Controller) (channel : Z) :
  ctrl_at ctrls channel = None <->
  ~ (0 <= channel < Z.of_nat (length ctrls)).
Proof.
  rewrite <- ctrl_at_is_Some. destruct (ctrl_at ctrls channel) as [c|].
  - split; [discriminate|]. intros H. exfalso. apply H. eexists. reflexivity.
  - split; [|reflexivity]. intros _ [c Hc]. discriminate.
Qed.

(** X8. Bounds of the controller table: [WillAcceptTransaction] and
    [AddTransaction] index [ctrls_] with the decoded [int] channel
    unchecked. When the shift count is one C++ defines and the channel lies
    within the table, both calls are defined and [WillAcceptTransaction]
    returns; when the channel lies outside the table, above it (a channel
    field that can name more channels than were built) or below it (a
    field value from 2^31 on, which [GetChannel] returns as a negative
    [int]), both calls are undefined, in every build. *)
Theorem Jedec_channel_bounds (NDEBUG : bool) (s : JedecDRAMSystem Controller)
    (a : Z) (w : bool) :
  (shift_defined (config_ (jedec_base s)) ->
   0 <= GetChannel (config_ (jedec_base s)) a < Z.of_nat (length (ctrls_ s)) ->
   (exists ok, Jedec_WillAcceptTransaction s a w = Returns ok) /\
   Jedec_AddTransaction NDEBUG s a w <> Undefined) /\
  (~ (0 <= GetChannel (config_ (jedec_base s)) a
        < Z.of_nat (length (ctrls_ s))) ->
   Jedec_WillAcceptTransaction s a w = Undefined /\
   Jedec_AddTransaction NDEBUG s a w = Undefined).
Proof.
  unfold Jedec_WillAcceptTransaction, Jedec_AddTransaction. split.
  - intros _ Hin. apply ctrl_at_is_Some in Hin as [c Hc]. rewrite Hc.
    split; [eexists; reflexivity|].
    destruct NDEBUG, (ctrl_WillAcceptTransaction c a w); discriminate.
  - intros Hout. apply ctrl_at_None in Hout. rewrite Hout.
    split; reflexivity.
Qed.

Lemma Jedec_submit_if_accepted_returns NDEBUG (s : JedecDRAMSystem Controller)
    a w :
  0 <= GetChannel (config_ (jedec_base s)) a < Z.of_nat (length (ctrls_ s)) ->
  exists ok s',
    Jedec_submit_if_accepted NDEBUG s a w = Returns (ok, s') /\
    Jedec_submit_if_accepted (negb NDEBUG) s a w = Returns (ok, s') /\
    jedec_base s' = jedec_base s /\
    length (ctrls_ s') = length (ctrls_ s).
Proof.
  intros Hin. apply ctrl_at_is_Some in Hin as [c Hc].
  unfold Jedec_submit_if_accepted, Jedec_WillAcceptTransaction,
    Jedec_AddTransaction.
  rewrite Hc.
  destruct (ctrl_WillAcceptTransaction c a w) eqn:Hok; rewrite ?Hok.
  - rewrite !andb_false_r. eexists _, _. repeat split.
    simpl. apply length_insert.
  - eexists _, _. repeat split.
Qed.

(** X9. The admission protocol is safe: a driver that submits only what
    [WillAcceptTransaction] has just accepted never trips [assert(ok)].
    Over any list of requests whose channels lie within the controller
    table, such a driver runs to the end, with the same result whether
    assertions are compiled in or not, and leaves the number of
    controllers and everything in the base object as they were. *)
Theorem Jedec_protocol_never_aborts (requests : list (Z * bool)) :
  forall (NDEBUG : bool) (s : JedecDRAMSystem Controller),
  (forall a w, (a, w) ∈ requests ->
     0 <= GetChannel (config_ (jedec_base s)) a
       < Z.of_nat (length (ctrls_ s))) ->
  exists oks s',
    Jedec_submit_all_if_accepted NDEBUG s requests = Returns (oks, s') /\
    Jedec_submit_all_if_accepted (negb NDEBUG) s requests = Returns (oks, s') /\
    length oks = length requests /\
    jedec_base s' = jedec_base s /\
    length (ctrls_ s') = length (ctrls_ s).
Proof.
  induction requests as [|[a w] requests IH]; intros NDEBUG s Hin.
  - exists [], s. repeat split.
  - destruct (Jedec_submit_if_accepted_returns NDEBUG s a w)
      as (ok & s1 & H1 & H1' & Hb1 & Hl1).
    { apply (Hin a w). left. }
    destruct (IH NDEBUG s1) as (oks & s2 & H2 & H2' & Hlen & Hb2 & Hl2).
    { intros a' w' Hin'. rewrite Hb1, Hl1. apply (Hin a' w'). right. exact Hin'. }
    exists (ok :: oks), s2. cbn [Jedec_submit_all_if_accepted].
    rewrite H1, H1', H2, H2'. simpl. rewrite Hlen.
    repeat split; congruence.
Qed.

Lemma PrintFinalStats_all_length (ctrls : list Controller) txt csv histo :
  length (PrintFinalStats_all ctrls txt csv histo).1 = length ctrls.
Proof.
  revert txt csv histo. induction ctrls as [|c ctrls IH]; intros txt csv histo.
  - reflexivity.
  - cbn [PrintFinalStats_all].
    destruct (ctrl_PrintFinalStats c txt csv histo) as [c' [[t1 c1] h1]].
    specialize (IH t1 c1 h1).
    destruct (PrintFinalStats_all ctrls t1 c1 h1) as [ctrls' files].
    simpl in *. rewrite IH. reflexivity.
Qed.

(** What one call leaves alone: the configuration and the number of
    controllers always, the epoch sink unless the call is [ClockTick], and
    what [ClockTick] appends to it. *)
Lemma Jedec_call_frame NDEBUG (s s' : JedecDRAMSystem Controller) c :
  Jedec_call NDEBUG s c = Returns s' ->
  config_ (jedec_base s') = config_ (jedec_base s) /\
  length (ctrls_ s') = length (ctrls_ s) /\
  Z.of_nat (length (rows (epoch_csv_file_ (jedec_base s')))) =
    Z.of_nat (length (rows (epoch_csv_file_ (jedec_base s)))) +
    (if is_CallTick c &&
        (wrap64 (clk_ (jedec_base s) + 1)
           mod wrap64 (epoch_period (config_ (jedec_base s))) =? 0)
     then Z.of_nat (length (ctrls_ s)) else 0).
Proof.
  destruct c; simpl.
  - destruct (Jedec_WillAcceptTransaction s hex_addr w); try discriminate.
    intros [= <-]. repeat split; lia.
  - unfold Jedec_AddTransaction.
    destruct (ctrl_at _ _) as [c|]; [|discriminate].
    destruct (negb NDEBUG && negb _); [discriminate|].
    destruct (ctrl_WillAcceptTransaction c hex_addr w);
      intros [= <-]; simpl; rewrite ?length_insert; repeat split; lia.
  - unfold Jedec_ClockTick. cbn [Base_tick config_ clk_ epoch_csv_file_].
    destruct (_ =? 0); [discriminate|].
    destruct (PrintEpochStats_all_rows (ctrl_ClockTick <$> ctrls_ s)
                (epoch_csv_file_ (jedec_base s))) as [Hrows Hlen].
    destruct (PrintEpochStats_all _ _) as [ctrls f]. simpl in Hrows, Hlen.
    destruct (_ =? 0); intros [= <-]; simpl.
    + rewrite Hrows, Hlen, length_app, !length_fmap. repeat split. lia.
    + rewrite length_fmap. repeat split. lia.
  - intros [= <-]. unfold Jedec_PrintStats.
    pose proof (PrintFinalStats_all_length (ctrls_ s)
                  (stats_txt_file_ (jedec_base s))
                  (stats_csv_file_ (jedec_base s))
                  (histo_csv_file_ (jedec_base s))) as Hlen.
    destruct (PrintFinalStats_all _ _ _ _) as [ctrls [[txt csv] histo]].
    simpl in *. repeat split; lia.
  - intros [= <-]. repeat split; simpl; lia.
  - intros [= <-]. repeat split; simpl; lia.
Qed.

Lemma epoch_count_step clk period :
  0 <= clk -> 0 < period ->
  (clk + 1) / period =
  clk / period + (if (clk + 1) mod period =? 0 then 1 else 0).
Proof.
  intros Hc Hp.
  pose proof (Z.div_mod clk period ltac:(lia)) as Hdm.
  pose proof (Z.mod_pos_bound clk period Hp) as Hr.
  destruct (Z.eq_dec (clk mod period) (period - 1)) as [Hlast|Hmid].
  - assert (Hd : (clk + 1) / period = clk / period + 1)
      by (symmetry; apply (Z.div_unique _ _ _ 0); lia).
    assert (Hm : (clk + 1) mod period = 0)
      by (symmetry; apply (Z.mod_unique _ _ (clk / period + 1)); lia).
    rewrite Hd, Hm. reflexivity.
  - assert (Hd : (clk + 1) / period = clk / period)
      by (symmetry; apply (Z.div_unique _ _ _ (clk mod period + 1)); lia).
    assert (Hm : (clk + 1) mod period = clk mod period + 1)
      by (symmetry; apply (Z.mod_unique _ _ (clk / period)); lia).
    rewrite Hd, Hm.
    destruct (Z.eqb_spec (clk mod period + 1) 0); lia.
Qed.

Lemma Jedec_run_epoch_rows NDEBUG cs :
  forall s s' : JedecDRAMSystem Controller,
  0 < epoch_period (config_ (jedec_base s)) < 2 ^ 64 ->
  0 <= clk_ (jedec_base s) ->
  clk_ (jedec_base s) + Call_ticks cs < 2 ^ 64 ->
  Jedec_run NDEBUG s cs = Returns s' ->
  length (ctrls_ s') = length (ctrls_ s) /\
  Z.of_nat (length (rows (epoch_csv_file_ (jedec_base s')))) =
    Z.of_nat (length (rows (epoch_csv_file_ (jedec_base s)))) +
    ((clk_ (jedec_base s) + Call_ticks cs)
       / epoch_period (config_ (jedec_base s))
     - clk_ (jedec_base s) / epoch_period (config_ (jedec_base s)))
    * Z.of_nat (length (ctrls_ s)).
Proof.
  induction cs as [|c cs IH]; intros s s' Hp Hclk Hticks.
  - simpl. intros [= <-]. rewrite Z.add_0_r. split; lia.
  - simpl. destruct (Jedec_call NDEBUG s c) as [s1| | |] eqn:Hc;
      try discriminate.
    intros Hrun. rewrite Call_ticks_cons in *.
    pose proof (Call_ticks_nonneg cs) as Hnn.
    pose proof (Jedec_call_clk _ _ _ _ Hc) as Hclk1.
    destruct (Jedec_call_frame _ _ _ _ Hc) as (Hcfg & Hlen & Hrows).
    rewrite (wrap64_small (epoch_period _)) in Hrows by lia.
    assert (Hclk1' : clk_ (jedec_base s1) =
                     clk_ (jedec_base s) + (if is_CallTick c then 1 else 0)).
    { rewrite Hclk1. destruct (is_CallTick c); [apply wrap64_small|]; lia. }
    destruct (IH s1 s') as [Hlen' Hrows']; try assumption.
    { rewrite Hcfg. exact Hp. }
    { rewrite Hclk1'. destruct (is_CallTick c); lia. }
    { rewrite Hclk1'. destruct (is_CallTick c); lia. }
    split; [congruence|].
    rewrite Hrows', Hrows, Hcfg, Hlen, Hclk1'.
    destruct (is_CallTick c); simpl.
    + rewrite (wrap64_small (clk_ (jedec_base s) + 1)) by lia.
      rewrite (epoch_count_step (clk_ (jedec_base s))) by lia.
      replace (clk_ (jedec_base s) + 1 + Call_ticks cs)
        with (clk_ (jedec_base s) + (1 + Call_ticks cs)) by lia.
      destruct ((clk_ (jedec_base s) + 1)
                  mod epoch_period (config_ (jedec_base s)) =? 0); ring.
    + rewrite !Z.add_0_r, Z.add_0_l. ring.
Qed.

(** X10. The volume of the epoch report: after any sequence of calls on a
    newly constructed timing-accurate system, with [n < 2^64] of them
    [ClockTick]s, the periodic-epoch sink holds [n / epoch_period] rows for
    each controller -- one per controller for every complete epoch, none
    for the current incomplete one, and none from the other calls. *)
Theorem Jedec_epoch_report_volume (NDEBUG : bool) (p : Process)
    (config : Config) (r w : Callback) (cs : list Call)
    (s s' : JedecDRAMSystem Controller) :
  0 < epoch_period config < 2 ^ 64 ->
  Call_ticks cs < 2 ^ 64 ->
  (JedecDRAMSystem_new p config r w).2 = Returns s ->
  Jedec_run NDEBUG s cs = Returns s' ->
  Z.of_nat (length (rows (epoch_csv_file_ (jedec_base s')))) =
  (Call_ticks cs / epoch_period config) * Z.of_nat (length (ctrls_ s')).
Proof.
  intros Hp Hticks Hnew Hrun.
  assert (Hs : config_ (jedec_base s) = config /\
               clk_ (jedec_base s) = 0 /\
               rows (epoch_csv_file_ (jedec_base s)) = []).
  { revert Hnew. unfold JedecDRAMSystem_new. simpl.
    destruct (IsHMC config); [discriminate|].
    destruct (channels config <? 0); [discriminate|].
    simpl. intros [= <-]. simpl. repeat split.
    destruct (1 <=? output_level config); reflexivity. }
  destruct Hs as (Hcfg & Hclk & Hrows).
  destruct (Jedec_run_epoch_rows NDEBUG cs s s') as [Hlen Hvol];
    rewrite ?Hcfg, ?Hclk; try assumption; try lia.
  rewrite Hvol, Hrows, Hcfg, Hclk, Hlen. simpl length.
  rewrite Z.div_0_l by lia. change (Z.of_nat 0) with 0.
  rewrite !Z.add_0_l, Z.sub_0_r. reflexivity.
Qed.

End JedecFurther.

(** In range on [example_jedec]; above the table on
    [example_jedec_mismatch], where address 0x40 decodes to channel 1 of a
    one-controller table; below it on [example_jedec_32], where address
    2^37 decodes to channel -2^31. *)
Lemma Jedec_channel_bounds_witness :
  ((exists ok, Jedec_WillAcceptTransaction example_jedec 0 false = Returns ok) /\
   Jedec_AddTransaction false example_jedec 0 false <> Undefined) /\
  (Jedec_WillAcceptTransaction example_jedec_mismatch 64 false = Undefined /\
   Jedec_AddTransaction false example_jedec_mismatch 64 false = Undefined) /\
  (Jedec_WillAcceptTransaction example_jedec_32 (2 ^ 37) false = Undefined /\
   Jedec_AddTransaction false example_jedec_32 (2 ^ 37) false = Undefined).
Proof.
  split; [|split].
  - apply (proj1 (Jedec_channel_bounds (CM := QueueController)
                    false example_jedec 0 false)).
    + vm_compute. split; [discriminate|reflexivity].
    + vm_compute. split; [discriminate|reflexivity].
  - apply (proj2 (Jedec_channel_bounds (CM := QueueController)
                    false example_jedec_mismatch 64 false)).
    vm_compute. intros [_ H]. discriminate H.
  - apply (proj2 (Jedec_channel_bounds (CM := QueueController)
                    false example_jedec_32 (2 ^ 37) false)).
    vm_compute. intros [H _]. apply H. reflexivity.
Defined.

(** On a one-controller table with a 33-bit channel field, address 2^38
    decodes to channel 0, the field's bit 32 being dropped: the call is
    within the table and returns. *)
Example Jedec_WillAcceptTransaction_width_33 :
  Jedec_WillAcceptTransaction example_jedec_wide (2 ^ 38) false =
  Returns true.
Proof. reflexivity. Qed.

(** Three requests on [example_jedec]; the second finds the queue of
    channel 0 full and is not submitted. *)
Lemma Jedec_protocol_never_aborts_witness :
  exists oks s',
    Jedec_submit_all_if_accepted false example_jedec
      [(0, false); (0, true); (64, false)] = Returns (oks, s') /\
    Jedec_submit_all_if_accepted (negb false) example_jedec
      [(0, false); (0, true); (64, false)] = Returns (oks, s') /\
    length oks = length [(0, false); (0, true); (64, false)] /\
    jedec_base s' = jedec_base example_jedec /\
    length (ctrls_ s') = length (ctrls_ example_jedec).
Proof.
  apply (Jedec_protocol_never_aborts (CM := QueueController)
           [(0, false); (0, true); (64, false)] false example_jedec).
  intros a w Hin.
  repeat (apply elem_of_cons in Hin as [[= -> ->]|Hin];
          [vm_compute; split; [discriminate|reflexivity]|]).
  inversion Hin.
Defined.

(** Nine ticks of [example_jedec] (epoch of 4, two controllers): four
    rows. *)
Lemma Jedec_epoch_report_volume_witness :
  Z.of_nat (length (rows (epoch_csv_file_ (jedec_base example_jedec_tick9)))) =
  (Call_ticks (replicate 9 CallTick) / epoch_period example_config) *
  Z.of_nat (length (ctrls_ example_jedec_tick9)).
Proof.
  apply (Jedec_epoch_report_volume (CM := QueueController) false
           Process_init example_config 1%nat 2%nat (replicate 9 CallTick)
           example_jedec example_jedec_tick9).
  - vm_compute. split; reflexivity.
  - vm_compute. reflexivity.
  - reflexivity.
  - vm_compute. reflexivity.
Defined.

(** ** Construction of the timing-accurate system *)

Section ConstructionTheorems.
Context {Controller : Type} {CM : ControllerModel Controller}.

(** X12. What the constructor of the timing-accurate system can do: it
    ends the process exactly when the configuration is an HMC one, throws
    exactly when it is not and the channel count is negative, and returns
    otherwise; in all three cases the base constructor has already added
    the configuration's channel count to [total_channels_]. *)
Theorem JedecDRAMSystem_new_outcomes (p : Process) (config : Config)
    (r w : Callback) :
  total_channels_ (JedecDRAMSystem_new p config r w).1 =
    wrap_int (total_channels_ p + channels config) /\
  ((JedecDRAMSystem_new p config r w).2 = Exits <-> IsHMC config = true) /\
  ((JedecDRAMSystem_new p config r w).2 = Throws <->
   IsHMC config = false /\ channels config < 0) /\
  ((exists s : JedecDRAMSystem Controller,
      (JedecDRAMSystem_new p config r w).2 = Returns s) <->
   IsHMC config = false /\ 0 <= channels config) /\
  (JedecDRAMSystem_new p config r w).2 <> Undefined.
Proof.
  unfold JedecDRAMSystem_new. simpl.
  destruct (IsHMC config); [|destruct (Z.ltb_spec (channels config) 0)];
    simpl; repeat split; intros;
    try discriminate; try reflexivity; try lia;
    try (match goal with H : ex _ |- _ =>
           destruct H as [? H]; discriminate H end);
    try (match goal with H : _ /\ _ |- _ =>
           destruct H; first [discriminate|lia] end);
    try (eexists; reflexivity).
Qed.

End ConstructionTheorems.

(** ** The report sinks a construction opens *)

(** X13. The sinks by verbosity: the base constructor opens nothing for a
    negative [output_level], the two summary sinks from level 0, the epoch
    sink from level 1 and the histogram sink from level 2; each opened file
    is named by the output prefix followed directly by ".txt", ".csv",
    "epoch.csv" or "hist.csv", and every sink starts with no row. *)
Theorem BaseDRAMSystem_new_sinks (p : Process) (config : Config)
    (r w : Callback) (k : Sink) :
  let b := (BaseDRAMSystem_new p config r w).2 in
  let tier := match k with
              | StatsTxt | StatsCsv => 0 | EpochCsv => 1 | HistoCsv => 2
              end in
  let suffix := match k with
                | StatsTxt => ".txt" | StatsCsv => ".csv"
                | EpochCsv => "epoch.csv" | HistoCsv => "hist.csv"
                end%string in
  is_open (sink_stream k b) = (tier <=? output_level config) /\
  file_name (sink_stream k b) =
    (if tier <=? output_level config
     then (output_prefix config ++ suffix)%string else EmptyString) /\
  rows (sink_stream k b) = [].
Proof.
  destruct k; simpl;
    match goal with |- context [?n <=? output_level config] =>
      destruct (n <=? output_level config) end;
    repeat split.
Qed.

(** ** Callbacks registered late on the timing-accurate system *)

Section RegisterTheorems.
Context {Controller : Type} {CM : ControllerModel Controller}.

Lemma Jedec_call_apart_from_callbacks NDEBUG
    (s1 s2 : JedecDRAMSystem Controller) c :
  same_apart_from_callbacks s1 s2 ->
  same_outcome_apart_from_callbacks
    (Jedec_call NDEBUG s1 c) (Jedec_call NDEBUG s2 c).
Proof.
  destruct s1 as [[r1 w1 l1 c1 k1 t1 v1 e1 h1] ctrls1].
  destruct s2 as [[r2 w2 l2 c2 k2 t2 v2 e2 h2] ctrls2].
  unfold same_apart_from_callbacks, RegisterCallbacks. simpl.
  intros [-> [= -> -> -> -> -> -> ->]].
  destruct c; simpl.
  - unfold Jedec_WillAcceptTransaction. simpl.
    destruct (ctrl_at _ _); simpl; [split; reflexivity|exact I].
  - unfold Jedec_AddTransaction. simpl.
    destruct (ctrl_at _ _) as [c|]; simpl; [|exact I].
    destruct (negb NDEBUG && negb _); simpl; [exact I|].
    destruct (ctrl_WillAcceptTransaction c hex_addr w); simpl;
      split; reflexivity.
  - unfold Jedec_ClockTick. simpl.
    destruct (_ =? 0); simpl; [exact I|].
    destruct (_ =? 0); simpl.
    + destruct (PrintEpochStats_all _ _). simpl. split; reflexivity.
    + split; reflexivity.
  - unfold Jedec_PrintStats. simpl.
    destruct (PrintFinalStats_all _ _ _ _) as [ctrls [[txt csv] histo]].
    simpl. split; reflexivity.
  - split; reflexivity.
  - split; reflexivity.
Qed.

Lemma Jedec_run_apart_from_callbacks NDEBUG cs :
  forall s1 s2 : JedecDRAMSystem Controller,
  same_apart_from_callbacks s1 s2 ->
  same_outcome_apart_from_callbacks
    (Jedec_run NDEBUG s1 cs) (Jedec_run NDEBUG s2 cs).
Proof.
  induction cs as [|c cs IH]; intros s1 s2 Hsame; [exact Hsame|].
  simpl. pose proof (Jedec_call_apart_from_callbacks NDEBUG s1 s2 c Hsame) as H.
  destruct (Jedec_call NDEBUG s1 c), (Jedec_call NDEBUG s2 c);
    simpl in H; try contradiction; try exact I.
  apply IH. exact H.
Qed.

(** X14. [RegisterCallbacks] does not reach the timing-accurate model: a
    system whose callbacks were re-registered goes through any later
    sequence of calls exactly as it would have without the re-registration
    -- the same outcome, the same controllers, clock and sinks -- the
    stored callbacks being the only difference. The controllers keep what
    they were constructed with. *)
Theorem Jedec_RegisterCallbacks_has_no_effect (NDEBUG : bool)
    (s : JedecDRAMSystem Controller) (r w : Callback) (cs : list Call) :
  same_outcome_apart_from_callbacks
    (Jedec_run NDEBUG s (CallRegister r w :: cs))
    (Jedec_run NDEBUG s cs).
Proof.
  simpl. apply Jedec_run_apart_from_callbacks.
  split; reflexivity.
Qed.

End RegisterTheorems.
